(** * Segmented shortest-path retrieval over a bounded-hop graph store

    A shallow embedding of the two Flask handlers of the repository,
    [src/spanner_graph_run.py] (one fixed 20-hop query) and
    [src/spanner_graph_run_DQ.py] (length resolution followed by a chunked
    walk), together with the properties their design document states
    about them.

    The graph store, the logging sink and Python's [int()] are external
    collaborators: they are gathered in an environment record [Env] whose
    answers may depend on everything the request has done so far.  The
    handlers are written in a small state-and-exception monad that records
    every call to a collaborator, with its answer, in a chronological
    trace. *)

From Stdlib Require Import ZArith List String Ascii Bool Lia DecimalString.
From Stdlib Require DecimalZ.
Import ListNotations.

Local Open Scope string_scope.
Local Open Scope Z_scope.

(** ** Python values and string formatting *)

(** [str(n)] for a Python [int]: decimal digits, with a leading minus sign
    for negative numbers. *)
Definition str_of_int (n : Z) : string :=
  NilEmpty.string_of_int (Z.to_int n).

(** Characters that can occur in the decimal rendering of an integer. *)
Definition decimal_char (c : ascii) : bool :=
  (Ascii.eqb c "-" || ((48 <=? nat_of_ascii c)%nat && (nat_of_ascii c <=? 57)%nat))%bool.

Fixpoint string_forall (p : ascii -> bool) (s : string) : bool :=
  match s with
  | EmptyString => true
  | String c s' => p c && string_forall p s'
  end.

(** Keyword arguments of a [str.format] call; every value the handlers
    pass is an [int]. *)
Definition kwargs := list (string * Z).

Fixpoint kw_lookup (name : string) (kw : kwargs) : option Z :=
  match kw with
  | [] => None
  | (k, v) :: kw' => if String.eqb k name then Some v else kw_lookup name kw'
  end.

(** Scanner state of [str.format]. *)
Inductive fmt_state : Type :=
| FText                      (* copying literal text *)
| FOpen                      (* just read an opening brace *)
| FField (name : string)     (* inside a replacement field *)
| FClose.                    (* just read a closing brace *)

(** [template.format] with keyword arguments [kw], for the
    replacement-field forms the handlers use: a doubled brace is a literal
    brace and [{name}] is replaced by [str(kw[name])].  The left injection
    carries [str(e)] of the exception Python raises on a malformed
    template or a missing keyword. *)
Fixpoint py_format_from (st : fmt_state) (template : string) (kw : kwargs)
  : string + string :=
  match template with
  | EmptyString =>
      match st with
      | FText => inr EmptyString
      | FOpen => inl "Single '{' encountered in format string"
      | FField _ => inl "expected '}' before end of string"
      | FClose => inl "Single '}' encountered in format string"
      end
  | String c rest =>
      let emit (piece : string) (r : string + string) :=
        match r with
        | inl e => inl e
        | inr s => inr (piece ++ s)
        end in
      match st with
      | FText =>
          if Ascii.eqb c "{" then py_format_from FOpen rest kw
          else if Ascii.eqb c "}" then py_format_from FClose rest kw
          else emit (String c EmptyString) (py_format_from FText rest kw)
      | FOpen =>
          if Ascii.eqb c "{" then emit "{" (py_format_from FText rest kw)
          else if Ascii.eqb c "}" then
            inl "Replacement index 0 out of range for positional args tuple"
          else py_format_from (FField (String c EmptyString)) rest kw
      | FField name =>
          if Ascii.eqb c "}" then
            match kw_lookup name kw with
            | Some v => emit (str_of_int v) (py_format_from FText rest kw)
            | None => inl ("'" ++ name ++ "'")
            end
          else py_format_from (FField (name ++ String c EmptyString)) rest kw
      | FClose =>
          if Ascii.eqb c "}" then emit "}" (py_format_from FText rest kw)
          else inl "Single '}' encountered in format string"
      end
  end.

Definition py_format (template : string) (kw : kwargs) : string + string :=
  py_format_from FText template kw.

(** The text of a successfully formatted query; [str(e)] otherwise. *)
Definition formatted (r : string + string) : string :=
  match r with
  | inr text => text
  | inl e => e
  end.

(** ** Data model *)

(** A column value of a result row: an INT64, or SQL NULL (Python [None]). *)
Definition cell := option Z.

(** A result row is a Python list of column values. *)
Definition row := list cell.

(** What [snapshot.execute_sql] followed by the iteration over its
    result set amounts to: an exception, or the rows that are read. *)
Inductive SqlResult : Type :=
| SqlRaise (e : string)
| SqlRows (rows : list row).

(** The dict built for each edge row. *)
Record Output : Type := mkOutput {
  STARTNODEID : cell;
  SEGMENTID : cell;
  ENDNODEID : cell
}.

(** The payload of [logger.log_struct]. *)
Record StructEntry : Type := mkStructEntry {
  entry_message : string;
  entry_query : string;
  entry_result_count : nat;
  entry_results : list Output
}.

Inductive Severity : Type := INFO | WARNING | ERROR.

(** The JSON documents the handlers return. *)
Inductive Body : Type :=
| ErrorBody (error : string)
| MessageBody (message : string) (path_length : Z)
| OutputsBody (outputs : list Output).

Record Response : Type := mkResponse {
  body : Body;
  status : Z
}.

(** The call site of a store query. *)
Inductive Site : Type :=
| AtBasic        (* spanner_graph_run.py, line 59 *)
| AtPathLength   (* spanner_graph_run_DQ.py, line 59 *)
| AtEndNode      (* line 94 *)
| AtChunk        (* line 118 *)
| AtMain.        (* line 143 *)

(** One interaction with a collaborator, with the collaborator's answer
    ([Some e] for a logging call that raised [e]). *)
Inductive Event : Type :=
| ESql (site : Site) (text : string) (result : SqlResult)
| ELogText (msg : string) (sev : Severity) (raised : option string)
| ELogStruct (entry : StructEntry) (sev : Severity) (raised : option string).

Definition Trace := list Event.

(** The collaborators.  [py_int s] is [int(s)] with [None] for
    [ValueError]; the other three answer a call given the calls made so
    far. *)
Record Env : Type := mkEnv {
  py_int : string -> option Z;
  execute_sql : Trace -> string -> SqlResult;
  log_text : Trace -> string -> Severity -> option string;
  log_struct : Trace -> StructEntry -> Severity -> option string
}.

(** ** The handler monad *)

(** How a block of statements ends. *)
Inductive Res (A : Type) : Type :=
| Val (a : A)               (* ran to its end *)
| Raised (e : string)       (* an exception with [str(e) = e] propagates *)
| Returned (r : Response)   (* a [return] statement was executed *)
| Diverged.                 (* the loop budget ran out *)

Arguments Val {A} a.
Arguments Raised {A} e.
Arguments Returned {A} r.
Arguments Diverged {A}.

Definition M (A : Type) : Type := Trace -> Res A * Trace.

Definition ret {A : Type} (a : A) : M A := fun t => (Val a, t).

Definition raise {A : Type} (e : string) : M A := fun t => (Raised e, t).

Definition return_ {A : Type} (r : Response) : M A := fun t => (Returned r, t).

Definition diverge {A : Type} : M A := fun t => (Diverged, t).

Definition bind {A B : Type} (m : M A) (k : A -> M B) : M B :=
  fun t =>
    match m t with
    | (Val a, t') => k a t'
    | (Raised e, t') => (Raised e, t')
    | (Returned r, t') => (Returned r, t')
    | (Diverged, t') => (Diverged, t')
    end.

Declare Scope handler_scope.
Delimit Scope handler_scope with handler.
Notation "x <- m ;; k" := (bind m (fun x => k))
  (at level 100, m at next level, right associativity) : handler_scope.
Notation "m ;;; k" := (bind m (fun _ => k))
  (at level 100, right associativity) : handler_scope.

(** [try: body except Exception as e: handler e]. *)
Definition try_except {A : Type} (body : M A) (handler : string -> M A) : M A :=
  fun t =>
    match body t with
    | (Raised e, t') => handler e t'
    | other => other
    end.

(** The result of [str.format]: its text, or the exception it raises. *)
Definition fmt (r : string + string) : M string :=
  match r with
  | inr text => ret text
  | inl e => raise e
  end.

(** What the web framework sees of one request. *)
Inductive Outcome : Type :=
| Responded (r : Response)
| Unhandled (e : string)
| NeverReturns.

Definition outcome_of (r : Res Response) : Outcome :=
  match r with
  | Val r => Responded r
  | Returned r => Responded r
  | Raised e => Unhandled e
  | Diverged => NeverReturns
  end.

(** [jsonify(x)] and [jsonify(x), code]. *)
Definition jsonify (b : Body) : Response := mkResponse b 200.
Definition jsonify_status (b : Body) (code : Z) : Response := mkResponse b code.

(** [row[i]], raising [IndexError]. *)
Definition row_get (r : row) (i : nat) : M cell :=
  match nth_error r i with
  | Some c => ret c
  | None => raise "list index out of range"
  end.

(** The edge loop shared by all three fetch sites:
    [for row in results: outputs.append({...row[0], row[1], row[2]...})]. *)
Fixpoint append_rows (rows : list row) (outputs : list Output) : M (list Output) :=
  match rows with
  | [] => ret outputs
  | r :: rows' =>
      (c0 <- row_get r 0 ;;
       c1 <- row_get r 1 ;;
       c2 <- row_get r 2 ;;
       append_rows rows' (outputs ++ [mkOutput c0 c1 c2])%list)%handler
  end.

Definition success_message (start_node_id end_node_id : Z) : string :=
  "GQL query executed successfully for start_node=" ++ str_of_int start_node_id
    ++ " and end_node=" ++ str_of_int end_node_id.

Section Handlers.

Variable env : Env.

(** [with database.snapshot() as snapshot: results = snapshot.execute_sql(text)]
    and the reading of [results]. *)
Definition run_sql (site : Site) (text : string) : M (list row) :=
  fun t =>
    let result := execute_sql env t text in
    let t' := (t ++ [ESql site text result])%list in
    match result with
    | SqlRaise e => (Raised e, t')
    | SqlRows rows => (Val rows, t')
    end.

Definition logger_log_text (msg : string) (sev : Severity) : M unit :=
  fun t =>
    let raised := log_text env t msg sev in
    let t' := (t ++ [ELogText msg sev raised])%list in
    match raised with
    | Some e => (Raised e, t')
    | None => (Val tt, t')
    end.

Definition logger_log_struct (entry : StructEntry) (sev : Severity) : M unit :=
  fun t =>
    let raised := log_struct env t entry sev in
    let t' := (t ++ [ELogStruct entry sev raised])%list in
    match raised with
    | Some e => (Raised e, t')
    | None => (Val tt, t')
    end.

(** Lines 29-43 of both files: argument presence ([not s] holds of [None]
    and of the empty string) and [int()] parsing.  The result is the pair
    of node ids, or the 400 response. *)
Definition parse_args (start_node end_node : option string) : M (Z * Z) :=
  match start_node, end_node with
  | Some (String _ _ as s), Some (String _ _ as e) =>
      match py_int env s, py_int env e with
      | Some start_node_id, Some end_node_id => ret (start_node_id, end_node_id)
      | _, _ =>
          let error_message :=
            "Invalid 'start_node' or 'end_node' parameter. Must be an integer." in
          (logger_log_text error_message ERROR ;;;
           return_ (jsonify_status (ErrorBody error_message) 400))%handler
      end
  | _, _ =>
      let error_message := "Missing 'start_node' or 'end_node' parameter." in
      (logger_log_text error_message ERROR ;;;
       return_ (jsonify_status (ErrorBody error_message) 400))%handler
  end.

(** The [except Exception as e] clause that closes both handlers. *)
Definition on_exception (e : string) : M Response :=
  (let error_message := "An error occurred: " ++ e in
   logger_log_text error_message ERROR ;;;
   return_ (jsonify_status (ErrorBody error_message) 500))%handler.

(** The structured log call and the final [return jsonify(outputs)]. *)
Definition log_and_return (start_node_id end_node_id : Z) (query : string)
    (outputs : list Output) : M Response :=
  (logger_log_struct
     (mkStructEntry (success_message start_node_id end_node_id) query
        (List.length outputs) outputs) INFO ;;;
   return_ (jsonify (OutputsBody outputs)))%handler.

End Handlers.

(** One request: the handler starts with an empty history, and the
    framework turns the way its body ends into an outcome. *)
Definition serve (handler : M Response) : Outcome * Trace :=
  let (r, t) := handler [] in (outcome_of r, t).

(** ** [src/spanner_graph_run.py] *)

Module Basic.

(** The template of [gql_query], lines 45-54. *)
Definition gql_query_template : string :=
"
        Graph INVENTARIO2
        MATCH
        p = ANY SHORTEST (
        (src:NODO {{NODEID: {start_node}}})-[s:SEGMENTO | REVERSE_SEGMENTO]->{{1, 20}}(dest:NODO {{NODEID: {end_node}}})
        )
        LET es = EDGES(p)
        FOR element in es
        RETURN element.STARTNODEID, element.SEGMENTID, element.ENDNODEID
    ".

Definition gql_query (start_node end_node : Z) : string + string :=
  py_format gql_query_template
    [("start_node", start_node); ("end_node", end_node)].

Section Handler.

Variable env : Env.

Definition run_graph_query_body (start_node end_node : option string) : M Response :=
  (ids <- parse_args env start_node end_node ;;
   let (start_node_id, end_node_id) := ids : Z * Z in
   gql_query <- fmt (gql_query start_node_id end_node_id) ;;
   try_except
     (results <- run_sql env AtBasic gql_query ;;
      outputs <- append_rows results [] ;;
      log_and_return env start_node_id end_node_id gql_query outputs)
     (on_exception env))%handler.

Definition run_graph_query (start_node end_node : option string) : Outcome * Trace :=
  serve (run_graph_query_body start_node end_node).

End Handler.
End Basic.

(** ** [src/spanner_graph_run_DQ.py] *)

Module DQ.

(** The template of [path_length_query], lines 47-55. *)
Definition path_length_template : string :=
"
            Graph INVENTARIO2
            MATCH
            ANY SHORTEST (
            (src:NODO {{NODEID: {start_node}}})-[s:SEGMENTO | REVERSE_SEGMENTO]->{{1, 100}}(dest:NODO {{NODEID: {end_node}}})
            )
            LET path_length = COUNT(s)
            RETURN  path_length
        ".

(** The template of [end_node_query], lines 83-91. *)
Definition end_node_template : string :=
"
                        Graph INVENTARIO2
                        MATCH
                        ANY SHORTEST (
                        (src:NODO {{NODEID: {start_node}}})-[s:SEGMENTO | REVERSE_SEGMENTO]->{{1, {chunk_size}}}(dest:NODO))
                        LET path_length = COUNT(s)
                        FILTER path_length = {chunk_size}
                        RETURN path_length,dest.NODEID as end_node
                    ".

(** The template of [gql_query_chunk], lines 104-113. *)
Definition gql_query_chunk_template : string :=
"
                    Graph INVENTARIO2
                    MATCH
                    p = ANY SHORTEST (
                    (src:NODO {{NODEID: {start_node}}})-[s:SEGMENTO | REVERSE_SEGMENTO]->{{1, {chunk_size}}}(dest:NODO {{NODEID: {end_node}}})
                    )
                    LET es = EDGES(p)
                    FOR element in es
                    RETURN element.STARTNODEID, element.SEGMENTID, element.ENDNODEID
                ".

(** The template of [gql_query] in the short-path branch, lines 131-140. *)
Definition gql_query_template : string :=
"
                Graph INVENTARIO2
                MATCH
                p = ANY SHORTEST (
                (src:NODO {{NODEID: {start_node}}})-[s:SEGMENTO | REVERSE_SEGMENTO]->{{1, {path_length}}}(dest:NODO {{NODEID: {end_node}}})
                )
                LET es = EDGES(p)
                FOR element in es
                RETURN element.STARTNODEID, element.SEGMENTID, element.ENDNODEID
            ".

Definition path_length_query (start_node end_node : Z) : string + string :=
  py_format path_length_template
    [("start_node", start_node); ("end_node", end_node)].

Definition end_node_query (start_node chunk_size : Z) : string + string :=
  py_format end_node_template
    [("start_node", start_node); ("chunk_size", chunk_size)].

Definition gql_query_chunk (start_node end_node chunk_size : Z) : string + string :=
  py_format gql_query_chunk_template
    [("start_node", start_node); ("end_node", end_node); ("chunk_size", chunk_size)].

Definition gql_query (start_node end_node path_length : Z) : string + string :=
  py_format gql_query_template
    [("start_node", start_node); ("end_node", end_node); ("path_length", path_length)].

Section Handler.

Variable env : Env.

(** Lines 57-62: [path_length = 0], overwritten by the first column of the
    first row, if there is one. *)
Definition first_path_length (results : list row) : M cell :=
  match results with
  | [] => ret (Some 0)
  | r :: _ => row_get r 0
  end.

(** Lines 95-97: [intermediate_end_node] stays [None] unless a row is
    read, and is then the row's second column. *)
Definition first_end_node (results : list row) : M cell :=
  match results with
  | [] => ret None
  | r :: _ => row_get r 1
  end.

(** The variables the [while] loop carries from one iteration to the
    next: [remaining_path_length], [current_start_node], [outputs] and
    [gql_query]. *)
Definition LoopState : Type := Z * Z * list Output * string.

(** Lines 76-128: the body of the loop, from the state at its start to the
    state at its end. *)
Definition loop_iteration (end_node_id : Z) (st : LoopState) : M LoopState :=
  let '(remaining_path_length, current_start_node, outputs, gql_query) := st in
  (let chunk_size := Z.min 20 remaining_path_length in
   intermediate_end_node <-
     (if remaining_path_length <=? 20 then ret (Some end_node_id)
      else
        end_node_query <- fmt (end_node_query current_start_node chunk_size) ;;
        results <- run_sql env AtEndNode end_node_query ;;
        first_end_node results) ;;
   match intermediate_end_node with
   | None =>
       let error_message :=
         "Could not find an intermediate node from "
           ++ str_of_int current_start_node ++ " at distance "
           ++ str_of_int chunk_size in
       logger_log_text env error_message ERROR ;;;
       return_ (jsonify_status (ErrorBody error_message) 500)
   | Some intermediate_end_node =>
       gql_query_chunk <-
         fmt (gql_query_chunk current_start_node intermediate_end_node chunk_size) ;;
       let gql_query := gql_query ++ gql_query_chunk in
       results <- run_sql env AtChunk gql_query_chunk ;;
       outputs <- append_rows results outputs ;;
       ret (remaining_path_length - chunk_size, intermediate_end_node,
            outputs, gql_query)
   end)%handler.

(** Line 75: [while remaining_path_length > 0], with one unit of [fuel]
    for each iteration. *)
Fixpoint while_loop (fuel : nat) (end_node_id : Z) (st : LoopState)
  : M (list Output * string) :=
  let '(remaining_path_length, _, outputs, gql_query) := st in
  if remaining_path_length >? 0 then
    match fuel with
    | O => diverge
    | S fuel' =>
        (st' <- loop_iteration end_node_id st ;;
         while_loop fuel' end_node_id st')%handler
    end
  else ret (outputs, gql_query).

(** Lines 45-163, the body of the [try] block. *)
Definition resolve_path (start_node_id end_node_id : Z) : M Response :=
  (path_length_query <- fmt (path_length_query start_node_id end_node_id) ;;
   results <- run_sql env AtPathLength path_length_query ;;
   path_length <- first_path_length results ;;
   match path_length with
   | Some 0 =>
       let error_message := "No path found between the specified nodes." in
       logger_log_text env error_message WARNING ;;;
       return_ (jsonify_status (MessageBody error_message 0) 200)
   | None => raise "'>' not supported between instances of 'NoneType' and 'int'"
   | Some path_length =>
       if path_length >? 20 then
         final <- while_loop (Z.to_nat path_length) end_node_id
                    (path_length, start_node_id, [], "") ;;
         let (outputs, gql_query) := final : list Output * string in
         log_and_return env start_node_id end_node_id gql_query outputs
       else
         gql_query <- fmt (gql_query start_node_id end_node_id path_length) ;;
         results <- run_sql env AtMain gql_query ;;
         outputs <- append_rows results [] ;;
         log_and_return env start_node_id end_node_id gql_query outputs
   end)%handler.

Definition run_graph_query_body (start_node end_node : option string) : M Response :=
  (ids <- parse_args env start_node end_node ;;
   let (start_node_id, end_node_id) := ids : Z * Z in
   try_except (resolve_path start_node_id end_node_id) (on_exception env))%handler.

Definition run_graph_query (start_node end_node : option string) : Outcome * Trace :=
  serve (run_graph_query_body start_node end_node).

End Handler.
End DQ.

(** The query builders are kept folded in proofs. *)
Arguments py_format : simpl never.
Arguments Basic.gql_query : simpl never.
Arguments DQ.path_length_query : simpl never.
Arguments DQ.end_node_query : simpl never.
Arguments DQ.gql_query_chunk : simpl never.
Arguments DQ.gql_query : simpl never.

(** ** Concrete environments *)

(** A parser standing for [int()] in the examples.  It accepts plain
    decimal notation only, an optional minus sign followed by at least one
    digit, which [int()] reads the same way; the other spellings [int()]
    accepts (surrounding blanks, a plus sign, underscores) are rejected
    here. *)
Definition parse_int (s : string) : option Z :=
  match NilEmpty.int_of_string s with
  | Some (Decimal.Pos Decimal.Nil) | Some (Decimal.Neg Decimal.Nil) => None
  | Some d => Some (Z.of_int d)
  | None => None
  end.

(** A store that answers by query text, with no row for unknown text. *)
Fixpoint table_store (table : list (string * SqlResult)) (text : string) : SqlResult :=
  match table with
  | [] => SqlRows []
  | (q, result) :: table' =>
      if String.eqb q text then result else table_store table' text
  end.

Definition quiet_text : Trace -> string -> Severity -> option string :=
  fun _ _ _ => None.

Definition quiet_struct : Trace -> StructEntry -> Severity -> option string :=
  fun _ _ _ => None.

Definition table_env (table : list (string * SqlResult)) : Env :=
  mkEnv parse_int (fun _ => table_store table) quiet_text quiet_struct.

(** The rows of the path that visits [nodes] in order; the edge leaving
    node [a] has segment id [1000 + a]. *)
Fixpoint path_rows (nodes : list Z) : list row :=
  match nodes with
  | a :: (b :: _) as rest => [Some a; Some (1000 + a); Some b] :: path_rows rest
  | _ => []
  end.

Definition count_row (n : Z) : row := [Some n].
Definition end_node_row (n node : Z) : row := [Some n; Some node].

(** [n] consecutive node ids starting at [a]. *)
Fixpoint nodes_from (a : Z) (n : nat) : list Z :=
  match n with
  | O => []
  | S n' => a :: nodes_from (a + 1) n'
  end.

(** The scenario of the design document: shortest path of 47 hops from
    node 1 to node 500, through nodes 2 to 47. *)
Definition scenario47 : Env :=
  table_env
    [ (formatted (DQ.path_length_query 1 500), SqlRows [count_row 47]);
      (formatted (DQ.end_node_query 1 20), SqlRows [end_node_row 20 21]);
      (formatted (DQ.end_node_query 21 20), SqlRows [end_node_row 20 41]);
      (formatted (DQ.gql_query_chunk 1 21 20), SqlRows (path_rows (nodes_from 1 21)));
      (formatted (DQ.gql_query_chunk 21 41 20), SqlRows (path_rows (nodes_from 21 21)));
      (formatted (DQ.gql_query_chunk 41 500 7),
        SqlRows (path_rows (nodes_from 41 7 ++ [500])%list)) ].

(** ** Reading traces *)

(** The call sites of the store queries of a trace, in order. *)
Definition sql_sites (t : Trace) : list Site :=
  flat_map (fun ev => match ev with ESql site _ _ => [site] | _ => [] end) t.

(** The query texts sent from call site [site], in order. *)
Definition site_eqb (a b : Site) : bool :=
  match a, b with
  | AtBasic, AtBasic | AtPathLength, AtPathLength | AtEndNode, AtEndNode
  | AtChunk, AtChunk | AtMain, AtMain => true
  | _, _ => false
  end.

Definition texts_at (site : Site) (t : Trace) : list string :=
  flat_map (fun ev =>
    match ev with
    | ESql site' text _ => if site_eqb site site' then [text] else []
    | _ => []
    end) t.

(** The dict of one edge row, when the row has its three columns. *)
Definition row_output (r : row) : option Output :=
  match r with
  | c0 :: c1 :: c2 :: _ => Some (mkOutput c0 c1 c2)
  | _ => None
  end.

(** The dicts of a result set, when every row has its three columns. *)
Fixpoint rows_outputs (rows : list row) : option (list Output) :=
  match rows with
  | [] => Some []
  | r :: rows' =>
      match row_output r, rows_outputs rows' with
      | Some o, Some os => Some (o :: os)
      | _, _ => None
      end
  end.

(** What a boundary-discovery answer leaves in [intermediate_end_node]:
    [Some None] when it stays absent, [None] when reading it raises. *)
Definition boundary_answer (result : SqlResult) : option cell :=
  match result with
  | SqlRaise _ => None
  | SqlRows [] => Some None
  | SqlRows (r :: _) => nth_error r 1
  end.

(** What a length answer leaves in [path_length]. *)
Definition length_answer (result : SqlResult) : option cell :=
  match result with
  | SqlRaise _ => None
  | SqlRows [] => Some (Some 0)
  | SqlRows (r :: _) => nth_error r 0
  end.

Definition missing_message (current_start_node chunk_size : Z) : string :=
  "Could not find an intermediate node from "
    ++ str_of_int current_start_node ++ " at distance "
    ++ str_of_int chunk_size.

(** ** A relational reading of the loop *)

(** How one iteration settles its [intermediate_end_node]: the events it
    produces and the node it finds. *)
Inductive boundary_step (end_node_id r cur : Z) : Z -> list Event -> Prop :=
| boundary_last :
    r <= 20 ->
    boundary_step end_node_id r cur end_node_id []
| boundary_found (btext : string) (result : SqlResult) (nxt : Z) :
    20 < r ->
    DQ.end_node_query cur 20 = inr btext ->
    boundary_answer result = Some (Some nxt) ->
    boundary_step end_node_id r cur nxt [ESql AtEndNode btext result].

(** One iteration of the loop: the way it ends and the events it adds. *)
Inductive iteration_step (end_node_id : Z)
  : DQ.LoopState -> Res DQ.LoopState -> list Event -> Prop :=
| iteration_completes r cur outs q nxt pre text rows new :
    boundary_step end_node_id r cur nxt pre ->
    DQ.gql_query_chunk cur nxt (Z.min 20 r) = inr text ->
    rows_outputs rows = Some new ->
    iteration_step end_node_id (r, cur, outs, q)
      (Val (r - Z.min 20 r, nxt, (outs ++ new)%list, q ++ text))
      (pre ++ [ESql AtChunk text (SqlRows rows)])
| iteration_fetch_raises r cur outs q nxt pre text result e :
    boundary_step end_node_id r cur nxt pre ->
    DQ.gql_query_chunk cur nxt (Z.min 20 r) = inr text ->
    match result with
    | SqlRaise _ => True
    | SqlRows rows => rows_outputs rows = None
    end ->
    iteration_step end_node_id (r, cur, outs, q)
      (Raised e) (pre ++ [ESql AtChunk text result])
| iteration_boundary_raises r cur outs q btext result e :
    20 < r ->
    DQ.end_node_query cur 20 = inr btext ->
    boundary_answer result = None ->
    iteration_step end_node_id (r, cur, outs, q)
      (Raised e) [ESql AtEndNode btext result]
| iteration_boundary_missing r cur outs q btext result :
    20 < r ->
    DQ.end_node_query cur 20 = inr btext ->
    boundary_answer result = Some None ->
    iteration_step end_node_id (r, cur, outs, q)
      (Returned (jsonify_status (ErrorBody (missing_message cur 20)) 500))
      [ESql AtEndNode btext result; ELogText (missing_message cur 20) ERROR None]
| iteration_boundary_missing_log_raises r cur outs q btext result e :
    20 < r ->
    DQ.end_node_query cur 20 = inr btext ->
    boundary_answer result = Some None ->
    iteration_step end_node_id (r, cur, outs, q) (Raised e)
      [ESql AtEndNode btext result; ELogText (missing_message cur 20) ERROR (Some e)].

(** A run of the loop: completed iterations, ended by the exit test or
    by an iteration that raises or returns. *)
Inductive loop_run (end_node_id : Z)
  : DQ.LoopState -> Res (list Output * string) -> list Event -> Prop :=
| loop_exit r cur outs q :
    r <= 0 ->
    loop_run end_node_id (r, cur, outs, q) (Val (outs, q)) []
| loop_continue r cur outs q st' evs res evs' :
    0 < r ->
    iteration_step end_node_id (r, cur, outs, q) (Val st') evs ->
    loop_run end_node_id st' res evs' ->
    loop_run end_node_id (r, cur, outs, q) res (evs ++ evs')
| loop_raised r cur outs q e evs :
    0 < r ->
    iteration_step end_node_id (r, cur, outs, q) (Raised e) evs ->
    loop_run end_node_id (r, cur, outs, q) (Raised e) evs
| loop_returned r cur outs q resp evs :
    0 < r ->
    iteration_step end_node_id (r, cur, outs, q) (Returned resp) evs ->
    loop_run end_node_id (r, cur, outs, q) (Returned resp) evs.

(** ** A relational reading of the handler *)

Definition success_entry (s e : Z) (q : string) (outs : list Output) : StructEntry :=
  mkStructEntry (success_message s e) q (List.length outs) outs.

Definition no_path_message : string := "No path found between the specified nodes.".

Definition no_path_response : Response :=
  jsonify_status (MessageBody no_path_message 0) 200.

Definition error_response (e : string) : Response :=
  jsonify_status (ErrorBody ("An error occurred: " ++ e)) 500.

(** The structured log call followed by [return jsonify(outputs)]. *)
Inductive finish_step (s e : Z) (q : string) (outs : list Output)
  : Res Response -> list Event -> Prop :=
| finish_logged :
    finish_step s e q outs (Returned (jsonify (OutputsBody outs)))
      [ELogStruct (success_entry s e q outs) INFO None]
| finish_log_raises err :
    finish_step s e q outs (Raised err)
      [ELogStruct (success_entry s e q outs) INFO (Some err)].

(** The body of the [try] block of the chunking handler. *)
Inductive resolve_step (s e : Z) : Res Response -> list Event -> Prop :=
| resolve_length_raises text result err :
    DQ.path_length_query s e = inr text ->
    match length_answer result with
    | Some (Some _) => False
    | _ => True
    end ->
    resolve_step s e (Raised err) [ESql AtPathLength text result]
| resolve_no_path text result :
    DQ.path_length_query s e = inr text ->
    length_answer result = Some (Some 0) ->
    resolve_step s e (Returned no_path_response)
      [ESql AtPathLength text result; ELogText no_path_message WARNING None]
| resolve_no_path_log_raises text result err :
    DQ.path_length_query s e = inr text ->
    length_answer result = Some (Some 0) ->
    resolve_step s e (Raised err)
      [ESql AtPathLength text result; ELogText no_path_message WARNING (Some err)]
| resolve_long text result L outs q evs res fin :
    DQ.path_length_query s e = inr text ->
    length_answer result = Some (Some L) ->
    20 < L ->
    loop_run e (L, s, [], "") (Val (outs, q)) evs ->
    finish_step s e q outs res fin ->
    resolve_step s e res (ESql AtPathLength text result :: evs ++ fin)
| resolve_long_raised text result L evs err :
    DQ.path_length_query s e = inr text ->
    length_answer result = Some (Some L) ->
    20 < L ->
    loop_run e (L, s, [], "") (Raised err) evs ->
    resolve_step s e (Raised err) (ESql AtPathLength text result :: evs)
| resolve_long_returned text result L evs resp :
    DQ.path_length_query s e = inr text ->
    length_answer result = Some (Some L) ->
    20 < L ->
    loop_run e (L, s, [], "") (Returned resp) evs ->
    resolve_step s e (Returned resp) (ESql AtPathLength text result :: evs)
| resolve_short text result L qtext rows outs res fin :
    DQ.path_length_query s e = inr text ->
    length_answer result = Some (Some L) ->
    L <> 0 -> L <= 20 ->
    DQ.gql_query s e L = inr qtext ->
    rows_outputs rows = Some outs ->
    finish_step s e qtext outs res fin ->
    resolve_step s e res
      (ESql AtPathLength text result :: ESql AtMain qtext (SqlRows rows) :: fin)
| resolve_short_raises text result L qtext fetched err :
    DQ.path_length_query s e = inr text ->
    length_answer result = Some (Some L) ->
    L <> 0 -> L <= 20 ->
    DQ.gql_query s e L = inr qtext ->
    match fetched with
    | SqlRaise _ => True
    | SqlRows rows => rows_outputs rows = None
    end ->
    resolve_step s e (Raised err)
      [ESql AtPathLength text result; ESql AtMain qtext fetched].

(** The body of the [try] block of the fixed-hop handler. *)
Inductive basic_step (s e : Z) : Res Response -> list Event -> Prop :=
| basic_fetched text rows outs res fin :
    Basic.gql_query s e = inr text ->
    rows_outputs rows = Some outs ->
    finish_step s e text outs res fin ->
    basic_step s e res (ESql AtBasic text (SqlRows rows) :: fin)
| basic_raises text fetched err :
    Basic.gql_query s e = inr text ->
    match fetched with
    | SqlRaise _ => True
    | SqlRows rows => rows_outputs rows = None
    end ->
    basic_step s e (Raised err) [ESql AtBasic text fetched].

(** A whole request, for a handler whose [try] block is described by
    [step]: the arguments are rejected, or the block returns, or it
    raises and the [except] clause answers. *)
Inductive request_run (env : Env) (step : Z -> Z -> Res Response -> list Event -> Prop)
    (start_node end_node : option string) : Outcome -> Trace -> Prop :=
| request_rejected msg :
    request_run env step start_node end_node
      (Responded (jsonify_status (ErrorBody msg) 400)) [ELogText msg ERROR None]
| request_rejected_log_raises msg err :
    request_run env step start_node end_node
      (Unhandled err) [ELogText msg ERROR (Some err)]
| request_returned sn en s e resp evs :
    start_node = Some sn -> end_node = Some en ->
    py_int env sn = Some s -> py_int env en = Some e ->
    step s e (Returned resp) evs ->
    request_run env step start_node end_node (Responded resp) evs
| request_failed sn en s e err evs :
    start_node = Some sn -> end_node = Some en ->
    py_int env sn = Some s -> py_int env en = Some e ->
    step s e (Raised err) evs ->
    request_run env step start_node end_node (Responded (error_response err))
      (evs ++ [ELogText ("An error occurred: " ++ err) ERROR None])%list
| request_failed_log_raises sn en s e err err' evs :
    start_node = Some sn -> end_node = Some en ->
    py_int env sn = Some s -> py_int env en = Some e ->
    step s e (Raised err) evs ->
    request_run env step start_node end_node (Unhandled err')
      (evs ++ [ELogText ("An error occurred: " ++ err) ERROR (Some err')])%list.

(** ** Vocabulary of the design document *)

(** A segment fetch: start node, end node and hop bound. *)
Definition Segment : Type := Z * Z * Z.

Definition segment_text (seg : Segment) : string :=
  let '(s, e, k) := seg in formatted (DQ.gql_query_chunk s e k).

Definition segment_size (seg : Segment) : Z := snd seg.

(** The path length a trace starts with, when its length query gave one. *)
Definition resolved_length (t : Trace) : option Z :=
  match t with
  | ESql AtPathLength _ result :: _ =>
      match length_answer result with
      | Some (Some L) => Some L
      | _ => None
      end
  | _ => None
  end.

Definition sum_sizes (sizes : list Z) : Z := fold_right Z.add 0 sizes.

(** The chunk plan of the document for total length [L] and hop cap 20:
    [ceil(L / 20)] chunks, all of size 20 except the last, which takes the
    rest. *)
Definition num_chunks (L : Z) : Z := (L + 19) / 20.

Definition chunk_plan (L : Z) : list Z :=
  (repeat 20 (Z.to_nat (num_chunks L - 1)) ++ [L - 20 * (num_chunks L - 1)])%list.

Definition cell_eqb (a b : cell) : bool :=
  match a, b with
  | Some x, Some y => x =? y
  | None, None => true
  | _, _ => false
  end.

(** The contiguity invariant of a path: the end node of each edge is the
    start node of the next. *)
Fixpoint contiguous (es : list Output) : bool :=
  match es with
  | a :: (b :: _) as rest => cell_eqb (ENDNODEID a) (STARTNODEID b) && contiguous rest
  | _ => true
  end.

(** A request that ends in an error: a 500 response, or an exception the
    handler lets through to the framework. *)
Definition error_outcome (out : Outcome) : Prop :=
  match out with
  | Responded r => status r = 500
  | Unhandled _ => True
  | NeverReturns => False
  end.

(** The edges fetched by the segment queries and the single-fetch query of
    a trace, in the order they were fetched. *)
Definition fetched_outputs (t : Trace) : list Output :=
  flat_map (fun ev =>
    match ev with
    | ESql AtChunk _ (SqlRows rows) | ESql AtMain _ (SqlRows rows) =>
        match rows_outputs rows with
        | Some outs => outs
        | None => []
        end
    | _ => []
    end) t.

(** The template each call site formats. *)
Definition site_template (site : Site) : string :=
  match site with
  | AtBasic => Basic.gql_query_template
  | AtPathLength => DQ.path_length_template
  | AtEndNode => DQ.end_node_template
  | AtChunk => DQ.gql_query_chunk_template
  | AtMain => DQ.gql_query_template
  end.

Fixpoint occurs (c : ascii) (s : string) : bool :=
  match s with
  | EmptyString => false
  | String c' s' => Ascii.eqb c c' || occurs c s'
  end.

(** A boundary-discovery call that left [intermediate_end_node] absent. *)
Definition missing_boundary (ev : Event) : bool :=
  match ev with
  | ESql AtEndNode _ result =>
      match boundary_answer result with
      | Some None => true
      | _ => false
      end
  | _ => false
  end.

Definition missing_response (cur : Z) : Response :=
  jsonify_status (ErrorBody (missing_message cur 20)) 500.

(** The boundary-discovery queries of a trace are those of a walk that
    starts at [cur]: each asks for a node at distance 20 from the current
    start, and the node found is the next current start. *)
Fixpoint follows_boundaries (cur : Z) (t : Trace) : Prop :=
  match t with
  | [] => True
  | ESql AtEndNode text result :: t' =>
      DQ.end_node_query cur 20 = inr text /\
      match boundary_answer result with
      | Some (Some nxt) => follows_boundaries nxt t'
      | _ => texts_at AtEndNode t' = []
      end
  | _ :: t' => follows_boundaries cur t'
  end.

(** A store query whose text is its call site's template with decimal
    integer literals formatted into it: beyond the characters of the
    template, the text holds digits and minus signs only. *)
Definition formatted_query (ev : Event) : Prop :=
  match ev with
  | ESql site text _ =>
      (exists kw, py_format (site_template site) kw = inr text)
      /\ string_forall
           (fun c => decimal_char c || occurs c (site_template site)) text = true
  | _ => True
  end.

(** A query text that is the same whatever values it is issued for, as
    the text of a prepared statement with bound parameters is. *)
Definition value_independent {A B : Type} (text_for : A -> B) : Prop :=
  forall a b, text_for a = text_for b.

Definition is_log_struct (ev : Event) : bool :=
  match ev with
  | ELogStruct _ _ _ => true
  | _ => false
  end.

(** How a [try] block stands with the structured log call: it ends
    without reaching the call, and not with an edge list; or the call is
    its last event, and the block returns the logged edge list when the
    call succeeds and raises the call's exception when it fails. *)
Definition struct_log_last (res : Res Response) (evs : list Event) : Prop :=
  (Forall (fun ev => is_log_struct ev = false) evs
   /\ forall outs, res <> Returned (jsonify (OutputsBody outs)))
  \/ (exists pre entry raised,
        evs = (pre ++ [ELogStruct entry INFO raised])%list
        /\ Forall (fun ev => is_log_struct ev = false) pre
        /\ entry_result_count entry = List.length (entry_results entry)
        /\ res = match raised with
                 | None => Returned (jsonify (OutputsBody (entry_results entry)))
                 | Some err => Raised err
                 end).


(** Directed edges [(start, segment id, end)] of the stored graph, one for
    each [SEGMENTO] or [REVERSE_SEGMENTO] edge. *)
Definition Graph : Type := list (Z * Z * Z).

(** [walk G a b n]: some walk of [n >= 1] edges leads from [a] to [b]. *)
Inductive walk (G : Graph) : Z -> Z -> nat -> Prop :=
| walk_edge a id b :
    In (a, id, b) G -> walk G a b 1
| walk_step a id b c n :
    In (a, id, b) G -> walk G b c n -> walk G a c (S n).

(** Modelled from the spec: the store's [ShortestHopCount] contract for
    the length query of one pair over graph [G].  The query's quantified
    path pattern only matches walks of 1 to 100 edges: with none there is
    no row, otherwise one row holding the least number of edges. *)
Definition store_counts_hops (G : Graph) (env : Env) (s e : Z) : Prop :=
  forall t,
    ((forall n, walk G s e n -> (100 < n)%nat) ->
       execute_sql env t (formatted (DQ.path_length_query s e)) = SqlRows [])
    /\ (forall n, (n <= 100)%nat -> walk G s e n ->
          (forall m, walk G s e m -> (n <= m)%nat) ->
          execute_sql env t (formatted (DQ.path_length_query s e))
            = SqlRows [count_row (Z.of_nat n)]).

(** The straight line [a -> a+1 -> ... -> a+n]. *)
Fixpoint line_graph (a : Z) (n : nat) : Graph :=
  match n with
  | O => []
  | S n' => (a, 1000 + a, a + 1) :: line_graph (a + 1) n'
  end.

(** The literal text of the length query around its two node ids. *)
Definition path_length_head : string :=
"
            Graph INVENTARIO2
            MATCH
            ANY SHORTEST (
            (src:NODO {NODEID: ".

Definition path_length_middle : string :=
  "})-[s:SEGMENTO | REVERSE_SEGMENTO]->{1, 100}(dest:NODO {NODEID: ".

Definition path_length_tail : string :=
"})
            )
            LET path_length = COUNT(s)
            RETURN  path_length
        ".

(** ** Further concrete environments *)


(** A store with no path between any pair. *)
Definition empty_store : Env := table_env [].

(** A path of 21 hops for which the store reports no node at distance 20. *)
Definition scenario_no_boundary : Env :=
  table_env [ (formatted (DQ.path_length_query 1 500), SqlRows [count_row 21]) ].

(** A path of 21 hops whose second segment does not start where the first
    one ends. *)
Definition scenario_gap : Env :=
  table_env
    [ (formatted (DQ.path_length_query 1 500), SqlRows [count_row 21]);
      (formatted (DQ.end_node_query 1 20), SqlRows [end_node_row 20 21]);
      (formatted (DQ.gql_query_chunk 1 21 20), SqlRows (path_rows (nodes_from 1 21)));
      (formatted (DQ.gql_query_chunk 21 500 1), SqlRows [[Some 77; Some 5; Some 500]]) ].

(** Two destinations, both 47 hops from node 1. *)
Definition scenario_two_targets : Env :=
  table_env
    [ (formatted (DQ.path_length_query 1 500), SqlRows [count_row 47]);
      (formatted (DQ.path_length_query 1 900), SqlRows [count_row 47]) ].

(** The three-hop store with a logging sink whose structured call raises. *)
Definition scenario_log_down : Env :=
  mkEnv parse_int
    (fun _ =>
       table_store
         [ (formatted (DQ.path_length_query 1 4), SqlRows [count_row 3]);
           (formatted (DQ.gql_query 1 4 3), SqlRows (path_rows [1; 2; 3; 4]));
           (formatted (Basic.gql_query 1 4), SqlRows (path_rows [1; 2; 3; 4])) ])
    quiet_text
    (fun _ _ _ => Some "logging unavailable").

(** A store with no path between any pair and a logging sink that raises
    on warnings. *)
Definition scenario_warn_down : Env :=
  mkEnv parse_int (fun _ => table_store [])
    (fun _ _ sev =>
       match sev with
       | WARNING => Some "log down"
       | _ => None
       end)
    quiet_struct.

(** ** Recorded runs *)

Definition run47 : Outcome * Trace :=
  DQ.run_graph_query scenario47 (Some "1") (Some "500").

Definition run_no_boundary : Outcome * Trace :=
  DQ.run_graph_query scenario_no_boundary (Some "1") (Some "500").

Definition run_gap : Outcome * Trace :=
  DQ.run_graph_query scenario_gap (Some "1") (Some "500").

Definition run_log_down : Outcome * Trace :=
  DQ.run_graph_query scenario_log_down (Some "1") (Some "4").

(** The edge list of a response, empty for the other responses. *)
Definition outputs_of (out : Outcome) : list Output :=
  match out with
  | Responded (mkResponse (OutputsBody outs) _) => outs
  | _ => []
  end.

(** ** Vocabulary of the further properties *)

Definition missing_args_message : string :=
  "Missing 'start_node' or 'end_node' parameter.".

Definition invalid_args_message : string :=
  "Invalid 'start_node' or 'end_node' parameter. Must be an integer.".

(** A request argument that [not] holds of: absent, or the empty string. *)
Definition falsy (arg : option string) : bool :=
  match arg with
  | None | Some EmptyString => true
  | Some _ => false
  end.

(** What a request that only made one error log call ends with. *)
Definition rejected_outcome (msg : string) (raised : option string) : Outcome :=
  match raised with
  | None => Responded (jsonify_status (ErrorBody msg) 400)
  | Some e => Unhandled e
  end.

(** A store call that raises ends the block of statements it is made in:
    it is the last event of the block, and the block raises the store's
    exception. *)
Definition raise_last {A : Type} (res : Res A) (evs : list Event) : Prop :=
  forall t1 site text e t2,
    evs = (t1 ++ ESql site text (SqlRaise e) :: t2)%list ->
    t2 = [] /\ res = Raised e.

(** A block of statements all of whose runs have that property. *)
Definition raises_last {A : Type} (m : M A) : Prop :=
  forall t res t',
    m t = (res, t') -> exists evs, t' = (t ++ evs)%list /\ raise_last res evs.

(** A store whose segment fetch from node 21 fails. *)
Definition scenario_store_down : Env :=
  mkEnv parse_int
    (fun _ text =>
       if String.eqb text (formatted (DQ.gql_query_chunk 21 41 20))
       then SqlRaise "503 unavailable"
       else execute_sql scenario47 [] text)
    quiet_text quiet_struct.

Definition run_store_down : Outcome * Trace :=
  DQ.run_graph_query scenario_store_down (Some "1") (Some "500").

(** The literal text of the other queries around their values. *)
Definition hops_open : string := "})-[s:SEGMENTO | REVERSE_SEGMENTO]->{1, ".

Definition dest_open : string := "}(dest:NODO {NODEID: ".

Definition basic_head : string :=
"
        Graph INVENTARIO2
        MATCH
        p = ANY SHORTEST (
        (src:NODO {NODEID: ".

Definition basic_middle : string := "})-[s:SEGMENTO | REVERSE_SEGMENTO]->{1, 20}(dest:NODO {NODEID: ".

Definition basic_tail : string :=
"})
        )
        LET es = EDGES(p)
        FOR element in es
        RETURN element.STARTNODEID, element.SEGMENTID, element.ENDNODEID
    ".

Definition end_node_head : string :=
"
                        Graph INVENTARIO2
                        MATCH
                        ANY SHORTEST (
                        (src:NODO {NODEID: ".

Definition end_node_filter : string :=
"}(dest:NODO))
                        LET path_length = COUNT(s)
                        FILTER path_length = ".

Definition end_node_tail : string :=
"
                        RETURN path_length,dest.NODEID as end_node
                    ".

Definition chunk_head : string :=
"
                    Graph INVENTARIO2
                    MATCH
                    p = ANY SHORTEST (
                    (src:NODO {NODEID: ".

Definition chunk_tail : string :=
"})
                    )
                    LET es = EDGES(p)
                    FOR element in es
                    RETURN element.STARTNODEID, element.SEGMENTID, element.ENDNODEID
                ".

Definition main_head : string :=
"
                Graph INVENTARIO2
                MATCH
                p = ANY SHORTEST (
                (src:NODO {NODEID: ".

Definition main_tail : string :=
"})
                )
                LET es = EDGES(p)
                FOR element in es
                RETURN element.STARTNODEID, element.SEGMENTID, element.ENDNODEID
            ".

(** A piece of literal text that cannot be mistaken for the end of a
    decimal number. *)
Definition ends_number (piece : string) : bool :=
  match piece with
  | EmptyString => false
  | String c _ => negb (decimal_char c)
  end.

(** The segments go from [s] to [e]: the first starts at [s], each later
    one starts where the one before it ends, and the last ends at [e]. *)
Fixpoint chained (s e : Z) (segs : list Segment) : Prop :=
  match segs with
  | [] => s = e
  | (a, b, _) :: rest => a = s /\ chained b e rest
  end.

(** The node a list of edges leads to from node [a], when each edge
    starts where the one before it ends. *)
Fixpoint path_from (a : Z) (es : list Output) : option Z :=
  match es with
  | [] => Some a
  | o :: rest =>
      match STARTNODEID o, ENDNODEID o with
      | Some x, Some y => if x =? a then path_from y rest else None
      | _, _ => None
      end
  end.

(** A segment fetch answered as the document's [ShortestPathEdges]
    contract says: for the segment from [a] to [b] with hop bound [k], the
    rows of a path of [k] edges from [a] to [b]. *)
Definition segment_served (ev : Event) : Prop :=
  match ev with
  | ESql AtChunk text result =>
      forall a b k,
        text = segment_text (a, b, k) ->
        exists rows es,
          result = SqlRows rows /\ rows_outputs rows = Some es
          /\ Z.of_nat (List.length es) = k /\ path_from a es = Some b
  | _ => True
  end.

(** The store queries of a chunked walk of total length [L], in order:
    a boundary query and a segment fetch for every chunk but the last, and
    a segment fetch for the last. *)
Definition query_schedule (L : Z) : list Site :=
  (List.concat (repeat [AtEndNode; AtChunk] (Z.to_nat (num_chunks L - 1)))
     ++ [AtChunk])%list.

(** Python's [+=] on strings, over a list of pieces. *)
Definition join (texts : list string) : string :=
  fold_right append EmptyString texts.

(** The responses the handlers can give. *)
Inductive response_shape : Response -> Prop :=
| shape_edges outs : response_shape (mkResponse (OutputsBody outs) 200)
| shape_no_path : response_shape (mkResponse (MessageBody no_path_message 0) 200)
| shape_bad_request msg : response_shape (mkResponse (ErrorBody msg) 400)
| shape_failure msg : response_shape (mkResponse (ErrorBody msg) 500).

(** The trace of the 47-hop scenario, event by event. *)
Definition trace47 : Trace :=
  [ ESql AtPathLength (formatted (DQ.path_length_query 1 500)) (SqlRows [count_row 47]);
    ESql AtEndNode (formatted (DQ.end_node_query 1 20)) (SqlRows [end_node_row 20 21]);
    ESql AtChunk (segment_text (1, 21, 20)) (SqlRows (path_rows (nodes_from 1 21)));
    ESql AtEndNode (formatted (DQ.end_node_query 21 20)) (SqlRows [end_node_row 20 41]);
    ESql AtChunk (segment_text (21, 41, 20)) (SqlRows (path_rows (nodes_from 21 21)));
    ESql AtChunk (segment_text (41, 500, 7))
      (SqlRows (path_rows (nodes_from 41 7 ++ [500])%list));
    ELogStruct
      (success_entry 1 500
         (join (map segment_text [(1, 21, 20); (21, 41, 20); (41, 500, 7)]))
         (outputs_of (fst run47))) INFO None ].

(** The plan and the schedule of what remains to be walked. *)
Definition plan_from (r : Z) : list Z :=
  if r >? 0 then chunk_plan r else [].

Definition schedule_from (r : Z) : list Site :=
  if r >? 0 then query_schedule r else [].

(** Store queries made by the loop: boundary queries and segment fetches. *)
Definition chunked_sites (sites : list Site) : Prop :=
  Forall (fun site => site = AtEndNode \/ site = AtChunk) sites.

(** The store queries a request of the chunking handler can make after
    its length query: none, the single fetch, or those of the loop. *)
Definition after_length_query (sites : list Site) : Prop :=
  sites = [] \/ sites = [AtMain] \/ chunked_sites sites.

(** The last event of a trace is the log call that goes with the
    response: an error message logged at severity ERROR, the "no path"
    message logged at WARNING, or the edge list logged at INFO. *)
Definition logged_last (resp : Response) (tr : Trace) : Prop :=
  match body resp with
  | ErrorBody msg => exists pre, tr = (pre ++ [ELogText msg ERROR None])%list
  | MessageBody msg _ => exists pre, tr = (pre ++ [ELogText msg WARNING None])%list
  | OutputsBody outs =>
      exists pre entry,
        tr = (pre ++ [ELogStruct entry INFO None])%list /\ entry_results entry = outs
  end.

(** * Properties *)

(** ** Formatting *)

Lemma basic_gql_query_ok (s e : Z) :
  Basic.gql_query s e = inr (formatted (Basic.gql_query s e)).
Proof. reflexivity. Qed.

Lemma path_length_query_ok (s e : Z) :
  DQ.path_length_query s e = inr (formatted (DQ.path_length_query s e)).
Proof. reflexivity. Qed.

Lemma end_node_query_ok (s k : Z) :
  DQ.end_node_query s k = inr (formatted (DQ.end_node_query s k)).
Proof. reflexivity. Qed.

Lemma gql_query_chunk_ok (s e k : Z) :
  DQ.gql_query_chunk s e k = inr (formatted (DQ.gql_query_chunk s e k)).
Proof. reflexivity. Qed.

Lemma gql_query_ok (s e k : Z) :
  DQ.gql_query s e k = inr (formatted (DQ.gql_query s e k)).
Proof. reflexivity. Qed.

(** ** The primitives of the handler monad *)

Lemma append_rows_eq (rows : list row) :
  forall (outs : list Output) (t : Trace),
    append_rows rows outs t =
      (match rows_outputs rows with
       | Some new => Val (outs ++ new)%list
       | None => Raised "list index out of range"
       end, t).
Proof.
  induction rows as [|r rows IH]; intros outs t; simpl.
  - now rewrite app_nil_r.
  - destruct r as [|c0 [|c1 [|c2 r]]]; try reflexivity.
    unfold bind; simpl. rewrite IH.
    destruct (rows_outputs rows); [|reflexivity].
    now rewrite <- app_assoc.
Qed.

Lemma first_end_node_eq (env : Env) (text : string) (t : Trace) :
  bind (run_sql env AtEndNode text) DQ.first_end_node t =
    let result := execute_sql env t text in
    (match boundary_answer result with
     | Some c => Val c
     | None =>
         Raised match result with
                | SqlRaise e => e
                | SqlRows _ => "list index out of range"
                end
     end, (t ++ [ESql AtEndNode text result])%list).
Proof.
  unfold bind, run_sql; simpl.
  destruct (execute_sql env t text) as [e|[|r rows]]; simpl; try reflexivity.
  destruct r as [|c0 [|c1 r]]; reflexivity.
Qed.

(** ** The loop against its relational reading *)

Lemma loop_iteration_sound (env : Env) (end_node_id : Z) (st : DQ.LoopState)
    (t t' : Trace) (res : Res DQ.LoopState) :
  DQ.loop_iteration env end_node_id st t = (res, t') ->
  exists evs, t' = (t ++ evs)%list /\ iteration_step end_node_id st res evs.
Proof.
  destruct st as [[[r cur] outs] q].
  unfold DQ.loop_iteration.
  destruct (r <=? 20) eqn:Hr.
  - apply Z.leb_le in Hr.
    unfold bind at 1. unfold ret at 1.
    pose proof (gql_query_chunk_ok cur end_node_id (Z.min 20 r)) as Hc.
    remember (formatted (DQ.gql_query_chunk cur end_node_id (Z.min 20 r))) as text.
    rewrite Hc.
    unfold fmt, bind, ret, run_sql.
    destruct (execute_sql env t text) as [e|rows] eqn:Hq.
    + intros [= <- <-].
      eexists; split; [reflexivity|].
      apply (iteration_fetch_raises end_node_id r cur outs q end_node_id [] text
               (SqlRaise e) e); auto using boundary_last.
    + rewrite append_rows_eq.
      destruct (rows_outputs rows) as [new|] eqn:Hn;
        intros [= <- <-]; (eexists; split; [reflexivity|]).
      * apply (iteration_completes end_node_id r cur outs q end_node_id []);
          auto using boundary_last.
      * apply (iteration_fetch_raises end_node_id r cur outs q end_node_id [] text
                 (SqlRows rows)); auto using boundary_last.
  - apply Z.leb_gt in Hr.
    assert (Hmin : Z.min 20 r = 20) by lia.
    pose proof (end_node_query_ok cur (Z.min 20 r)) as Hbq.
    remember (formatted (DQ.end_node_query cur (Z.min 20 r))) as btext.
    rewrite Hbq.
    unfold fmt at 1. unfold bind at 1. unfold bind at 1. unfold ret at 1.
    fold (bind (run_sql env AtEndNode btext) DQ.first_end_node t).
    rewrite first_end_node_eq. cbv zeta.
    set (bres := execute_sql env t btext).
    rewrite Hmin in Hbq.
    destruct (boundary_answer bres) as [[nxt|]|] eqn:Hb.
    + assert (Hstep : boundary_step end_node_id r cur nxt [ESql AtEndNode btext bres])
        by (apply boundary_found; auto).
      pose proof (gql_query_chunk_ok cur nxt (Z.min 20 r)) as Hc.
      remember (formatted (DQ.gql_query_chunk cur nxt (Z.min 20 r))) as text.
      rewrite Hc.
      unfold fmt, bind, ret, run_sql.
      destruct (execute_sql env _ text) as [e|rows] eqn:Hq.
      * intros [= <- <-].
        eexists; split; [now rewrite <- app_assoc|].
        eapply iteration_fetch_raises with (result := SqlRaise e); eauto.
      * rewrite append_rows_eq.
        destruct (rows_outputs rows) as [new|] eqn:Hn;
          intros [= <- <-]; (eexists; split; [now rewrite <- app_assoc|]).
        -- eapply iteration_completes; eauto.
        -- eapply iteration_fetch_raises with (result := SqlRows rows); eauto.
    + unfold bind, logger_log_text, return_.
      rewrite Hmin. fold (missing_message cur 20).
      destruct (log_text env _ (missing_message cur 20) ERROR) as [e|] eqn:Hl;
        intros [= <- <-]; (eexists; split; [now rewrite <- app_assoc|]).
      * apply iteration_boundary_missing_log_raises; auto.
      * apply iteration_boundary_missing; auto.
    + intros [= <- <-].
      eexists; split; [reflexivity|].
      apply iteration_boundary_raises; auto.
Qed.

Lemma iteration_step_remaining (end_node_id r cur : Z) (outs : list Output)
    (q : string) (st' : DQ.LoopState) (evs : list Event) :
  iteration_step end_node_id (r, cur, outs, q) (Val st') evs ->
  fst (fst (fst st')) = r - Z.min 20 r.
Proof. intros H; inversion H; reflexivity. Qed.

Lemma while_loop_sound (env : Env) (end_node_id : Z) (fuel : nat) :
  forall (st : DQ.LoopState) (t t' : Trace) (res : Res (list Output * string)),
    fst (fst (fst st)) <= 20 * Z.of_nat fuel ->
    DQ.while_loop env fuel end_node_id st t = (res, t') ->
    exists evs, t' = (t ++ evs)%list /\ loop_run end_node_id st res evs.
Proof.
  induction fuel as [|fuel IH]; intros [[[r cur] outs] q] t t' res Hfuel;
    cbn [fst] in Hfuel; cbn [DQ.while_loop];
    destruct (r >? 0) eqn:Hr;
    try (intros [= <- <-]; exists []; rewrite app_nil_r; split; [reflexivity|];
         apply loop_exit; lia).
  - lia.
  - assert (0 < r) by lia.
    unfold bind.
    destruct (DQ.loop_iteration env end_node_id (r, cur, outs, q) t)
      as [ires ti] eqn:Hi.
    apply loop_iteration_sound in Hi as (evs & -> & Hstep).
    destruct ires as [st'|e|resp|].
    + intros Hloop.
      pose proof (iteration_step_remaining _ _ _ _ _ _ _ Hstep) as Hrem.
      apply IH in Hloop as (evs' & -> & Hrun); [|lia].
      exists (evs ++ evs')%list; split; [now rewrite app_assoc|].
      destruct st' as [[[r' cur'] outs'] q'].
      eapply loop_continue; eauto.
    + intros [= <- <-]. exists evs; split; [reflexivity|].
      now apply loop_raised.
    + intros [= <- <-]. exists evs; split; [reflexivity|].
      now apply loop_returned.
    + inversion Hstep.
Qed.

Lemma loop_run_not_diverged (end_node_id : Z) (st : DQ.LoopState)
    (res : Res (list Output * string)) (evs : list Event) :
  loop_run end_node_id st res evs -> res <> Diverged.
Proof. induction 1; auto; discriminate. Qed.

(** The number of iterations allowed does not matter once it is enough. *)
Lemma while_loop_fuel_irrelevant (env : Env) (end_node_id : Z) (n : nat) :
  forall (m : nat) (st : DQ.LoopState) (t : Trace),
    fst (fst (fst st)) <= 20 * Z.of_nat n ->
    fst (fst (fst st)) <= 20 * Z.of_nat m ->
    DQ.while_loop env n end_node_id st t = DQ.while_loop env m end_node_id st t.
Proof.
  induction n as [|n IH]; intros [|m] [[[r cur] outs] q] t Hn Hm;
    cbn [fst] in Hn, Hm; cbn [DQ.while_loop];
    destruct (r >? 0) eqn:Hr; try reflexivity; try lia.
  unfold bind.
  destruct (DQ.loop_iteration env end_node_id (r, cur, outs, q) t)
    as [[st'|e|resp|] ti] eqn:Hi; try reflexivity.
  apply loop_iteration_sound in Hi as (evs & -> & Hstep).
  pose proof (iteration_step_remaining _ _ _ _ _ _ _ Hstep) as Hrem.
  apply IH; lia.
Qed.

Lemma ceil_fuel_enough (L : Z) (fuel : nat) :
  (Z.to_nat ((L + 19) / 20) <= fuel)%nat -> L <= 20 * Z.of_nat fuel.
Proof.
  intros H.
  destruct (Z_le_gt_dec L 0) as [|Hpos]; [lia|].
  assert (0 <= (L + 19) / 20) by (apply Z.div_pos; lia).
  assert ((L + 19) / 20 <= Z.of_nat fuel) by lia.
  pose proof (Z.div_mod (L + 19) 20 ltac:(lia)).
  pose proof (Z.mod_pos_bound (L + 19) 20 ltac:(lia)).
  lia.
Qed.

(** C10: the chunking loop terminates for every remaining length [L > 0].
    Each iteration subtracts [min(20, L)], which is at least 1 and at most
    [L], so [ceil(L / 20)] iterations are enough: with that many or more
    the loop does not run out of iterations, and it ends the same way
    whatever larger number is allowed. *)
Theorem C10_while_loop_terminates (env : Env) (end_node_id L cur : Z)
    (outs : list Output) (q : string) (t : Trace) (fuel : nat) :
  0 < L ->
  (Z.to_nat ((L + 19) / 20) <= fuel)%nat ->
  fst (DQ.while_loop env fuel end_node_id (L, cur, outs, q) t) <> Diverged
  /\ DQ.while_loop env fuel end_node_id (L, cur, outs, q) t
     = DQ.while_loop env (Z.to_nat ((L + 19) / 20)) end_node_id (L, cur, outs, q) t
  /\ 1 <= Z.min 20 L <= L
  /\ 0 <= L - Z.min 20 L < L.
Proof.
  intros HL Hfuel.
  pose proof (ceil_fuel_enough L fuel Hfuel) as Hn.
  pose proof (ceil_fuel_enough L _ (Nat.le_refl _)) as Hc.
  repeat split; try lia.
  - destruct (DQ.while_loop env fuel end_node_id (L, cur, outs, q) t)
      as [res t'] eqn:Hrun.
    apply while_loop_sound in Hrun as (evs & _ & Hrun); [|exact Hn].
    exact (loop_run_not_diverged _ _ _ _ Hrun).
  - now apply while_loop_fuel_irrelevant.
Qed.

(** ** The handlers against their relational reading *)

Lemma log_and_return_sound (env : Env) (s e : Z) (q : string) (outs : list Output)
    (t t' : Trace) (res : Res Response) :
  log_and_return env s e q outs t = (res, t') ->
  exists fin, t' = (t ++ fin)%list /\ finish_step s e q outs res fin.
Proof.
  unfold log_and_return, bind, logger_log_struct, return_.
  fold (success_entry s e q outs).
  destruct (log_struct env t (success_entry s e q outs) INFO) as [err|];
    intros [= <- <-]; eexists; split; try reflexivity; constructor.
Qed.

Lemma first_path_length_eq {A : Type} (env : Env) (text : string)
    (k : cell -> M A) (t : Trace) :
  bind (run_sql env AtPathLength text)
    (fun results => bind (DQ.first_path_length results) k) t =
    let result := execute_sql env t text in
    let t' := (t ++ [ESql AtPathLength text result])%list in
    match length_answer result with
    | Some c => k c t'
    | None =>
        (Raised match result with
                | SqlRaise e => e
                | SqlRows _ => "list index out of range"
                end, t')
    end.
Proof.
  unfold bind, run_sql; simpl.
  destruct (execute_sql env t text) as [e|[|r rows]]; simpl; try reflexivity.
  destruct r as [|c0 r]; reflexivity.
Qed.

Lemma resolve_path_sound (env : Env) (s e : Z) (t t' : Trace) (res : Res Response) :
  DQ.resolve_path env s e t = (res, t') ->
  exists evs, t' = (t ++ evs)%list /\ resolve_step s e res evs.
Proof.
  unfold DQ.resolve_path.
  pose proof (path_length_query_ok s e) as Hp.
  remember (formatted (DQ.path_length_query s e)) as text.
  rewrite Hp.
  unfold fmt at 1. unfold bind at 1. unfold ret at 1.
  rewrite first_path_length_eq. cbv zeta.
  set (result := execute_sql env t text).
  destruct (length_answer result) as [[L|]|] eqn:Hl.
  - destruct (Z.eq_dec L 0) as [->|HL].
    + unfold bind, logger_log_text, return_.
      fold no_path_message. fold no_path_response.
      destruct (log_text env _ no_path_message WARNING) as [err|];
        intros [= <- <-]; (eexists; split; [now rewrite <- app_assoc|]).
      * now apply resolve_no_path_log_raises.
      * now apply resolve_no_path.
    + replace (match L with 0 => _ | _ => _ end)
        with (if L >? 20
              then
                bind (DQ.while_loop env (Z.to_nat L) e (L, s, [], ""))
                  (fun final =>
                     let (outputs, gql_query) := final : list Output * string in
                     log_and_return env s e gql_query outputs)
              else
                bind (fmt (DQ.gql_query s e L))
                  (fun gql_query =>
                     bind (run_sql env AtMain gql_query)
                       (fun results =>
                          bind (append_rows results [])
                            (fun outputs =>
                               log_and_return env s e gql_query outputs))))
        by (destruct L; [contradiction|reflexivity|reflexivity]).
      destruct (L >? 20) eqn:Hlong.
      * assert (20 < L) by lia.
        unfold bind.
        destruct (DQ.while_loop env (Z.to_nat L) e (L, s, [], "") _)
          as [lres tl] eqn:Hloop.
        apply while_loop_sound in Hloop as (evs & -> & Hrun);
          [|cbn [fst]; lia].
        destruct lres as [[outs q]|err|resp|].
        -- intros Hfin.
           apply log_and_return_sound in Hfin as (fin & -> & Hfin).
           exists (ESql AtPathLength text result :: evs ++ fin)%list; split.
           ++ now rewrite <- !app_assoc.
           ++ eapply resolve_long; eauto.
        -- intros [= <- <-]. eexists; split; [now rewrite <- app_assoc|].
           eapply resolve_long_raised; eauto.
        -- intros [= <- <-]. eexists; split; [now rewrite <- app_assoc|].
           eapply resolve_long_returned; eauto.
        -- now apply loop_run_not_diverged in Hrun.
      * assert (L <= 20) by lia.
        pose proof (gql_query_ok s e L) as Hg.
        remember (formatted (DQ.gql_query s e L)) as qtext.
        rewrite Hg.
        unfold fmt at 1. unfold bind at 1. unfold ret at 1.
        unfold bind at 1. unfold run_sql.
        destruct (execute_sql env _ qtext) as [err|rows] eqn:Hq.
        -- intros [= <- <-]. eexists; split; [now rewrite <- app_assoc|].
           apply resolve_short_raises with (L := L) (fetched := SqlRaise err); auto.
        -- unfold bind. rewrite append_rows_eq.
           destruct (rows_outputs rows) as [outs|] eqn:Hrows.
           ++ intros Hfin.
              apply log_and_return_sound in Hfin as (fin & -> & Hfin).
              eexists; split; [now rewrite <- !app_assoc|].
              cbn [app]. eapply resolve_short; eauto.
           ++ intros [= <- <-]. eexists; split; [now rewrite <- app_assoc|].
              apply resolve_short_raises with (L := L) (fetched := SqlRows rows); auto.
  - intros [= <- <-]. eexists; split; [reflexivity|].
    apply resolve_length_raises; [assumption|now rewrite Hl].
  - intros [= <- <-]. eexists; split; [reflexivity|].
    apply resolve_length_raises; [assumption|now rewrite Hl].
Qed.

Lemma basic_body_sound (env : Env) (s e : Z) (text : string)
    (t t' : Trace) (res : Res Response) :
  Basic.gql_query s e = inr text ->
  bind (run_sql env AtBasic text)
    (fun results =>
       bind (append_rows results [])
         (fun outputs => log_and_return env s e text outputs)) t = (res, t') ->
  exists evs, t' = (t ++ evs)%list /\ basic_step s e res evs.
Proof.
  intros Htext. unfold bind at 1. unfold run_sql.
  destruct (execute_sql env t text) as [err|rows] eqn:Hq.
  - intros [= <- <-]. eexists; split; [reflexivity|].
    apply basic_raises with (fetched := SqlRaise err); auto.
  - unfold bind. rewrite append_rows_eq.
    destruct (rows_outputs rows) as [outs|] eqn:Hrows.
    + intros Hfin.
      apply log_and_return_sound in Hfin as (fin & -> & Hfin).
      eexists; split; [now rewrite <- app_assoc|].
      cbn [app]. eapply basic_fetched; eauto.
    + intros [= <- <-]. eexists; split; [reflexivity|].
      apply basic_raises with (fetched := SqlRows rows); auto.
Qed.

Lemma finish_step_ends (s e : Z) (q : string) (outs : list Output)
    (res : Res Response) (fin : list Event) :
  finish_step s e q outs res fin ->
  (exists resp, res = Returned resp) \/ (exists err, res = Raised err).
Proof. destruct 1; eauto. Qed.

Lemma resolve_step_ends (s e : Z) (res : Res Response) (evs : list Event) :
  resolve_step s e res evs ->
  (exists resp, res = Returned resp) \/ (exists err, res = Raised err).
Proof. destruct 1; eauto using finish_step_ends. Qed.

Lemma basic_step_ends (s e : Z) (res : Res Response) (evs : list Event) :
  basic_step s e res evs ->
  (exists resp, res = Returned resp) \/ (exists err, res = Raised err).
Proof. destruct 1; eauto using finish_step_ends. Qed.

(** The [try] block with its [except] clause, at the start of a request. *)
Lemma try_except_sound (env : Env)
    (step : Z -> Z -> Res Response -> list Event -> Prop)
    (sn en : string) (s e : Z) (body : M Response)
    (res : Res Response) (tr : Trace) :
  py_int env sn = Some s -> py_int env en = Some e ->
  (forall res' t', body [] = (res', t') -> step s e res' t') ->
  (forall res' evs, step s e res' evs ->
     (exists resp, res' = Returned resp) \/ (exists err, res' = Raised err)) ->
  try_except body (on_exception env) [] = (res, tr) ->
  request_run env step (Some sn) (Some en) (outcome_of res) tr.
Proof.
  intros Hs He Hbody Hends. unfold try_except.
  destruct (body []) as [bres tb] eqn:Hb.
  pose proof (Hbody _ _ eq_refl) as Hstep.
  destruct (Hends _ _ Hstep) as [[resp ->]|[err ->]].
  - intros [= <- <-]. eapply request_returned; eauto.
  - unfold on_exception, bind, logger_log_text, return_.
    destruct (log_text env tb _ ERROR) as [err'|]; intros [= <- <-].
    + eapply request_failed_log_raises; eauto.
    + eapply request_failed; eauto.
Qed.

(** What [parse_args] does at the start of a request. *)
Lemma parse_args_cases (env : Env) (start_node end_node : option string) :
  (exists sn en s e,
     start_node = Some sn /\ end_node = Some en /\
     py_int env sn = Some s /\ py_int env en = Some e /\
     parse_args env start_node end_node [] = (Val (s, e), []))
  \/ (exists msg,
        parse_args env start_node end_node [] =
          (Returned (jsonify_status (ErrorBody msg) 400), [ELogText msg ERROR None]))
  \/ (exists msg err,
        parse_args env start_node end_node [] =
          (Raised err, [ELogText msg ERROR (Some err)])).
Proof.
  unfold parse_args.
  assert (Hlog : forall msg,
    (exists msg',
        bind (logger_log_text env msg ERROR)
          (fun _ => return_ (jsonify_status (ErrorBody msg) 400)) [] =
        (Returned (jsonify_status (ErrorBody msg') 400) : Res (Z * Z),
         [ELogText msg' ERROR None]))
    \/ (exists msg' err,
        bind (logger_log_text env msg ERROR)
          (fun _ => return_ (jsonify_status (ErrorBody msg) 400)) [] =
        (Raised err : Res (Z * Z), [ELogText msg' ERROR (Some err)]))).
  { intros msg. unfold bind, logger_log_text, return_.
    destruct (log_text env [] msg ERROR) as [err|]; cbn [app]; eauto. }
  destruct start_node as [[|c1 s1]|]; try (right; apply Hlog);
    destruct end_node as [[|c2 s2]|]; try (right; apply Hlog).
  destruct (py_int env (String c1 s1)) as [s|] eqn:Hs; try (right; apply Hlog).
  destruct (py_int env (String c2 s2)) as [e|] eqn:He; try (right; apply Hlog).
  left. exists (String c1 s1), (String c2 s2), s, e. auto.
Qed.

Lemma DQ_run_sound (env : Env) (start_node end_node : option string)
    (out : Outcome) (tr : Trace) :
  DQ.run_graph_query env start_node end_node = (out, tr) ->
  request_run env resolve_step start_node end_node out tr.
Proof.
  unfold DQ.run_graph_query, serve, DQ.run_graph_query_body.
  unfold bind at 1.
  destruct (parse_args_cases env start_node end_node)
    as [(sn & en & s & e & -> & -> & Hs & He & ->)|[(msg & ->)|(msg & err & ->)]].
  - destruct (try_except _ _ []) as [res t'] eqn:Hrun.
    intros [= <- <-].
    eapply try_except_sound; eauto using resolve_step_ends.
    intros res' t'' Hres.
    now apply resolve_path_sound in Hres as (evs & -> & Hstep).
  - intros [= <- <-]. apply request_rejected.
  - intros [= <- <-]. apply request_rejected_log_raises.
Qed.

Lemma Basic_run_sound (env : Env) (start_node end_node : option string)
    (out : Outcome) (tr : Trace) :
  Basic.run_graph_query env start_node end_node = (out, tr) ->
  request_run env basic_step start_node end_node out tr.
Proof.
  unfold Basic.run_graph_query, serve, Basic.run_graph_query_body.
  unfold bind at 1.
  destruct (parse_args_cases env start_node end_node)
    as [(sn & en & s & e & -> & -> & Hs & He & ->)|[(msg & ->)|(msg & err & ->)]].
  - pose proof (basic_gql_query_ok s e) as Hq.
    remember (formatted (Basic.gql_query s e)) as text.
    rewrite Hq. unfold fmt, bind at 1, ret.
    destruct (try_except _ _ []) as [res t'] eqn:Hrun.
    intros [= <- <-].
    eapply try_except_sound; eauto using basic_step_ends.
    intros res' t'' Hres.
    now apply basic_body_sound in Hres as (evs & -> & Hstep).
  - intros [= <- <-]. apply request_rejected.
  - intros [= <- <-]. apply request_rejected_log_raises.
Qed.

(** Every request ends: the handlers never run out of loop iterations. *)
Lemma request_run_ends (env : Env)
    (step : Z -> Z -> Res Response -> list Event -> Prop)
    (start_node end_node : option string) (out : Outcome) (tr : Trace) :
  request_run env step start_node end_node out tr -> out <> NeverReturns.
Proof. destruct 1; discriminate. Qed.

Lemma DQ_run_ends (env : Env) (start_node end_node : option string) :
  fst (DQ.run_graph_query env start_node end_node) <> NeverReturns.
Proof.
  destruct (DQ.run_graph_query env start_node end_node) as [out tr] eqn:Hrun.
  apply DQ_run_sound in Hrun. exact (request_run_ends _ _ _ _ _ _ Hrun).
Qed.

Lemma Basic_run_ends (env : Env) (start_node end_node : option string) :
  fst (Basic.run_graph_query env start_node end_node) <> NeverReturns.
Proof.
  destruct (Basic.run_graph_query env start_node end_node) as [out tr] eqn:Hrun.
  apply Basic_run_sound in Hrun. exact (request_run_ends _ _ _ _ _ _ Hrun).
Qed.

(** ** Successful requests *)

Lemma loop_returned_response (end_node_id : Z) (st : DQ.LoopState)
    (res : Res (list Output * string)) (evs : list Event) :
  loop_run end_node_id st res evs ->
  forall resp, res = Returned resp ->
  exists cur, resp = jsonify_status (ErrorBody (missing_message cur 20)) 500.
Proof.
  induction 1 as [| | |r cur outs q resp' evs Hr Hstep]; intros resp Hres;
    try discriminate; auto.
  injection Hres as <-. inversion Hstep; subst. now exists cur.
Qed.

(** A request answered with the edge list went through the length query
    and then either through the loop or through the single fetch, and
    ended with a structured log call that did not raise. *)
Lemma DQ_success_inv (env : Env) (start_node end_node : option string)
    (outs : list Output) (tr : Trace) :
  DQ.run_graph_query env start_node end_node
    = (Responded (jsonify (OutputsBody outs)), tr) ->
  exists sn en s e text result L,
    start_node = Some sn /\ end_node = Some en /\
    py_int env sn = Some s /\ py_int env en = Some e /\
    DQ.path_length_query s e = inr text /\
    length_answer result = Some (Some L) /\
    ((20 < L /\ exists q evs,
        loop_run e (L, s, [], "") (Val (outs, q)) evs /\
        tr = (ESql AtPathLength text result
                :: evs ++ [ELogStruct (success_entry s e q outs) INFO None])%list)
     \/ (L <> 0 /\ L <= 20 /\ exists qtext rows,
           DQ.gql_query s e L = inr qtext /\
           rows_outputs rows = Some outs /\
           tr = [ESql AtPathLength text result; ESql AtMain qtext (SqlRows rows);
                 ELogStruct (success_entry s e qtext outs) INFO None])).
Proof.
  intros Hrun. apply DQ_run_sound in Hrun.
  inversion Hrun as [msg|msg err|sn en s e resp evs Hsn Hen Hs He Hstep
                    |sn en s e err evs|sn en s e err err' evs]; subst;
    try discriminate.
  exists sn, en, s, e.
  inversion Hstep as [|text result Ht Hl|
                      |text result L outs' q evs' res fin Ht Hl HL Hloop Hfin|
                      |text result L evs' resp' Ht Hl HL Hloop
                      |text result L qtext rows outs' res fin Ht Hl HL0 HL Hq Hrows Hfin|];
    subst; try discriminate.
  - inversion Hfin; subst.
    exists text, result, L. repeat (split; [assumption || reflexivity|]).
    left. split; [assumption|]. now exists q, evs'.
  - destruct (loop_returned_response _ _ _ _ Hloop _ eq_refl) as [cur Hc].
    discriminate.
  - inversion Hfin; subst.
    exists text, result, L. repeat (split; [assumption || reflexivity|]).
    right. split; [assumption|]. split; [assumption|]. now exists qtext, rows.
Qed.

(** ** The chunk plan *)

Lemma num_chunks_small (r : Z) : 0 < r -> r <= 20 -> num_chunks r = 1.
Proof. intros; unfold num_chunks; Z.div_mod_to_equations; lia. Qed.

Lemma num_chunks_step (r : Z) : num_chunks r = num_chunks (r - 20) + 1.
Proof.
  unfold num_chunks.
  replace (r + 19) with (r - 20 + 19 + 1 * 20) by lia.
  apply Z.div_add; lia.
Qed.

Lemma num_chunks_pos (r : Z) : 0 < r -> 1 <= num_chunks r.
Proof. intros; unfold num_chunks; Z.div_mod_to_equations; lia. Qed.

Lemma chunk_plan_small (r : Z) : 0 < r -> r <= 20 -> chunk_plan r = [r].
Proof.
  intros H0 H20; unfold chunk_plan.
  rewrite (num_chunks_small r H0 H20); cbn. f_equal; lia.
Qed.

Lemma chunk_plan_step (r : Z) : 20 < r -> chunk_plan r = 20 :: chunk_plan (r - 20).
Proof.
  intros Hr; unfold chunk_plan.
  rewrite (num_chunks_step r).
  pose proof (num_chunks_pos (r - 20) ltac:(lia)) as Hn.
  replace (num_chunks (r - 20) + 1 - 1) with (Z.succ (num_chunks (r - 20) - 1)) by lia.
  rewrite Z2Nat.inj_succ by lia. cbn [repeat app].
  do 3 f_equal. lia.
Qed.

Lemma chunk_plan_sum (L : Z) : 0 < L -> sum_sizes (chunk_plan L) = L.
Proof.
  intros HL; unfold chunk_plan.
  pose proof (num_chunks_pos L HL) as Hn.
  assert (Hrep : forall (n : nat) (tl : list Z),
             sum_sizes (repeat 20 n ++ tl) = 20 * Z.of_nat n + sum_sizes tl).
  { unfold sum_sizes.
    induction n as [|n IH]; intros tl; cbn [repeat app fold_right].
    - lia.
    - rewrite IH. lia. }
  rewrite Hrep. unfold sum_sizes. cbn [fold_right]. lia.
Qed.

Lemma chunk_plan_bounds (L : Z) :
  0 < L -> Forall (fun k => 1 <= k <= 20) (chunk_plan L).
Proof.
  intros HL; unfold chunk_plan.
  apply Forall_app; split.
  - apply Forall_forall. intros k Hk. apply repeat_spec in Hk. lia.
  - constructor; [|constructor].
    unfold num_chunks. Z.div_mod_to_equations; lia.
Qed.

Lemma chunk_plan_length (L : Z) :
  0 < L -> Z.of_nat (List.length (chunk_plan L)) = num_chunks L.
Proof.
  intros HL; unfold chunk_plan.
  pose proof (num_chunks_pos L HL).
  rewrite length_app, repeat_length; cbn. lia.
Qed.

Lemma texts_at_app (site : Site) (t1 t2 : Trace) :
  texts_at site (t1 ++ t2)%list = (texts_at site t1 ++ texts_at site t2)%list.
Proof. apply flat_map_app. Qed.

Lemma boundary_step_no_chunk (end_node_id r cur nxt : Z) (pre : list Event) :
  boundary_step end_node_id r cur nxt pre -> texts_at AtChunk pre = [].
Proof. destruct 1; reflexivity. Qed.

(** The segment fetches of a completed loop follow the chunk plan of the
    remaining length. *)
Lemma loop_run_plan (end_node_id : Z) (st : DQ.LoopState)
    (res : Res (list Output * string)) (evs : list Event) :
  loop_run end_node_id st res evs ->
  forall final, res = Val final ->
  exists segs,
    texts_at AtChunk evs = map segment_text segs /\
    map segment_size segs =
      (if fst (fst (fst st)) >? 0 then chunk_plan (fst (fst (fst st))) else []).
Proof.
  induction 1 as [r cur outs q Hr
                 |r cur outs q st' evs res evs' Hr Hstep Hrun IH| |];
    intros final Hres; try discriminate; cbn [fst].
  - exists []. split; [reflexivity|].
    destruct (r >? 0) eqn:E; [lia|reflexivity].
  - destruct (IH _ Hres) as (segs & Htexts & Hsizes).
    inversion Hstep as [r0 cur0 outs0 q0 nxt pre text rows new Hb Hc Hn| | | |]; subst.
    exists ((cur, nxt, Z.min 20 r) :: segs). split.
    + rewrite !texts_at_app, (boundary_step_no_chunk _ _ _ _ _ Hb), Htexts.
      cbn. now rewrite Hc.
    + cbn [map segment_size snd fst] in *. rewrite Hsizes.
      replace (r >? 0) with true by lia.
      destruct (Z_le_gt_dec r 20).
      * replace (Z.min 20 r) with r by lia.
        replace (r - r >? 0) with false by lia.
        now rewrite chunk_plan_small by lia.
      * replace (Z.min 20 r) with 20 by lia.
        replace (r - 20 >? 0) with true by lia.
        now rewrite (chunk_plan_step r) by lia.
Qed.

(** C1: for every request that is answered with the edge list and whose
    resolved path length [L] exceeds the hop cap 20, the segment fetches
    issued by the chunking loop are exactly [ceil(L / 20)] in number; their
    hop bounds are 20 for all but the last, whose bound is
    [L - 20 * (ceil(L / 20) - 1)]; the bounds sum to [L]; and each lies
    between 1 and 20, so no empty final chunk is fetched. *)
Theorem C1_chunking_follows_plan (env : Env) (start_node end_node : option string)
    (outs : list Output) (tr : Trace) (L : Z) :
  DQ.run_graph_query env start_node end_node
    = (Responded (jsonify (OutputsBody outs)), tr) ->
  resolved_length tr = Some L ->
  20 < L ->
  exists segs : list Segment,
    texts_at AtChunk tr = map segment_text segs
    /\ Z.of_nat (List.length segs) = (L + 19) / 20
    /\ map segment_size segs
       = (repeat 20 (Z.to_nat ((L + 19) / 20 - 1))
            ++ [L - 20 * ((L + 19) / 20 - 1)])%list
    /\ sum_sizes (map segment_size segs) = L
    /\ Forall (fun k => 1 <= k <= 20) (map segment_size segs).
Proof.
  intros Hrun Hlen HL.
  destruct (DQ_success_inv _ _ _ _ _ Hrun)
    as (sn & en & s & e & text & result & L' & _ & _ & _ & _ & _ & Hl & Hcases).
  assert (L' = L) as ->.
  { destruct Hcases as [(_ & q & evs & _ & ->)|(_ & _ & qtext & rows & _ & _ & ->)];
      cbn [resolved_length] in Hlen; rewrite Hl in Hlen; congruence. }
  destruct Hcases as [(_ & q & evs & Hloop & ->)|(_ & Hshort & _)]; [|lia].
  destruct (loop_run_plan _ _ _ _ Hloop _ eq_refl) as (segs & Htexts & Hsizes).
  cbn [fst] in Hsizes. replace (L >? 0) with true in Hsizes by lia.
  exists segs.
  assert (Hchunks : texts_at AtChunk
            (ESql AtPathLength text result
               :: evs ++ [ELogStruct (success_entry s e q outs) INFO None])
          = map segment_text segs).
  { change (ESql AtPathLength text result :: ?l)
      with ([ESql AtPathLength text result] ++ l)%list.
    rewrite !texts_at_app, Htexts. cbn. now rewrite app_nil_r. }
  split; [exact Hchunks|].
  rewrite Hsizes.
  split; [rewrite <- (length_map segment_size), Hsizes;
          apply chunk_plan_length; lia|].
  split; [reflexivity|].
  split; [apply chunk_plan_sum; lia|apply chunk_plan_bounds; lia].
Qed.

(** ** Requests whose arguments parse *)

Lemma DQ_run_parsed (env : Env) (sn en : string) (s e : Z) :
  sn <> "" -> en <> "" ->
  py_int env sn = Some s -> py_int env en = Some e ->
  DQ.run_graph_query env (Some sn) (Some en)
    = serve (try_except (DQ.resolve_path env s e) (on_exception env)).
Proof.
  intros Hsn Hen Hs He.
  unfold DQ.run_graph_query, DQ.run_graph_query_body, serve, bind, parse_args.
  destruct sn as [|c1 sn]; [contradiction|].
  destruct en as [|c2 en]; [contradiction|].
  now rewrite Hs, He.
Qed.

Lemma resolve_path_eq (env : Env) (s e : Z) (t : Trace) :
  DQ.resolve_path env s e t =
    let text := formatted (DQ.path_length_query s e) in
    let result := execute_sql env t text in
    let t' := (t ++ [ESql AtPathLength text result])%list in
    match length_answer result with
    | Some (Some 0) =>
        bind (logger_log_text env no_path_message WARNING)
          (fun _ => return_ no_path_response) t'
    | Some (Some L) =>
        if L >? 20 then
          bind (DQ.while_loop env (Z.to_nat L) e (L, s, [], ""))
            (fun final => log_and_return env s e (snd final) (fst final)) t'
        else
          bind (run_sql env AtMain (formatted (DQ.gql_query s e L)))
            (fun results =>
               bind (append_rows results [])
                 (fun outputs =>
                    log_and_return env s e (formatted (DQ.gql_query s e L)) outputs)) t'
    | Some None =>
        (Raised "'>' not supported between instances of 'NoneType' and 'int'", t')
    | None =>
        (Raised match result with
                | SqlRaise err => err
                | SqlRows _ => "list index out of range"
                end, t')
    end.
Proof.
  unfold DQ.resolve_path.
  pose proof (path_length_query_ok s e) as Hp.
  remember (formatted (DQ.path_length_query s e)) as text.
  rewrite Hp.
  unfold fmt at 1. unfold bind at 1. unfold ret at 1.
  rewrite first_path_length_eq. cbv zeta.
  destruct (length_answer (execute_sql env t text)) as [[L|]|]; try reflexivity.
  assert (Hloop : forall t0,
    bind (DQ.while_loop env (Z.to_nat L) e (L, s, [], ""))
      (fun final =>
         let (outputs, gql_query) := final : list Output * string in
         log_and_return env s e gql_query outputs) t0
    = bind (DQ.while_loop env (Z.to_nat L) e (L, s, [], ""))
        (fun final => log_and_return env s e (snd final) (fst final)) t0).
  { intros t0. unfold bind.
    destruct (DQ.while_loop env (Z.to_nat L) e (L, s, [], "") t0)
      as [[[outs q]| | |] tl]; reflexivity. }
  pose proof (gql_query_ok s e L) as Hg.
  remember (formatted (DQ.gql_query s e L)) as qtext.
  destruct L; try reflexivity;
    (destruct (_ >? 20); [apply Hloop|]; rewrite Hg; reflexivity).
Qed.

(** The no-path branch, lines 64-67. *)
Lemma no_path_run (env : Env) (sn en : string) (s e : Z) :
  sn <> "" -> en <> "" ->
  py_int env sn = Some s -> py_int env en = Some e ->
  length_answer (execute_sql env [] (formatted (DQ.path_length_query s e)))
    = Some (Some 0) ->
  (forall t, log_text env t no_path_message WARNING = None) ->
  DQ.run_graph_query env (Some sn) (Some en)
    = (Responded (mkResponse (MessageBody no_path_message 0) 200),
       [ESql AtPathLength (formatted (DQ.path_length_query s e))
          (execute_sql env [] (formatted (DQ.path_length_query s e)));
        ELogText no_path_message WARNING None]).
Proof.
  intros Hsn Hen Hs He Hlen Hlog.
  rewrite (DQ_run_parsed env sn en s e) by assumption.
  unfold serve, try_except. rewrite resolve_path_eq. cbv zeta.
  cbn [app]. rewrite Hlen.
  unfold bind, logger_log_text, return_. rewrite Hlog. reflexivity.
Qed.

(** C4, as the code has it: the warning is logged inside the [try]
    block, so the no-path answer depends on that call.  When the length
    query yields no row, or a row whose count is 0, and the WARNING log
    call does not raise, the request is answered with status 200, the
    message "No path found between the specified nodes." and
    [path_length] 0, after that single store query, and this is not an
    error outcome. *)
Theorem C4_no_path_is_success (env : Env) (sn en : string) (s e : Z) :
  sn <> "" -> en <> "" ->
  py_int env sn = Some s -> py_int env en = Some e ->
  length_answer (execute_sql env [] (formatted (DQ.path_length_query s e)))
    = Some (Some 0) ->
  (forall t, log_text env t no_path_message WARNING = None) ->
  DQ.run_graph_query env (Some sn) (Some en)
    = (Responded (mkResponse (MessageBody no_path_message 0) 200),
       [ESql AtPathLength (formatted (DQ.path_length_query s e))
          (execute_sql env [] (formatted (DQ.path_length_query s e)));
        ELogText no_path_message WARNING None])
  /\ ~ error_outcome (fst (DQ.run_graph_query env (Some sn) (Some en))).
Proof.
  intros Hsn Hen Hs He Hlen Hlog.
  pose proof (no_path_run env sn en s e Hsn Hen Hs He Hlen Hlog) as Hrun.
  split; [exact Hrun|].
  rewrite Hrun. cbn. discriminate.
Qed.

(** C4 fails as stated: for a pair with no path, when the WARNING log
    call raises, the [except] clause answers the request with status 500
    and "An error occurred: log down". *)
Lemma C4_no_path_with_failing_warning_is_an_error :
  length_answer
    (execute_sql scenario_warn_down [] (formatted (DQ.path_length_query 1 5)))
    = Some (Some 0)
  /\ DQ.run_graph_query scenario_warn_down (Some "1") (Some "5")
     = (Responded (mkResponse (ErrorBody "An error occurred: log down") 500),
        [ESql AtPathLength (formatted (DQ.path_length_query 1 5)) (SqlRows []);
         ELogText no_path_message WARNING (Some "log down");
         ELogText "An error occurred: log down" ERROR None])
  /\ error_outcome
       (fst (DQ.run_graph_query scenario_warn_down (Some "1") (Some "5"))).
Proof. repeat split; vm_compute; reflexivity. Qed.



(** ** Walks in the stored graph *)

Lemma line_graph_edge (n : nat) :
  forall a x id y, In (x, id, y) (line_graph a n) -> y = x + 1.
Proof.
  induction n as [|n IH]; intros a x id y; cbn [line_graph In].
  - contradiction.
  - intros [[= <- <- <-]|Hin]; [reflexivity|]. exact (IH _ _ _ _ Hin).
Qed.

Lemma line_graph_walk (a : Z) (n : nat) (x y : Z) (k : nat) :
  walk (line_graph a n) x y k -> y = x + Z.of_nat k.
Proof.
  induction 1 as [x id y Hin|x id y z k Hin Hwalk IH].
  - apply line_graph_edge in Hin. lia.
  - apply line_graph_edge in Hin. lia.
Qed.

Lemma line_graph_has_walk (n : nat) :
  forall a, (0 < n)%nat -> walk (line_graph a n) a (a + Z.of_nat n) n.
Proof.
  induction n as [|[|n] IH]; intros a Hn; [lia| |].
  - replace (a + Z.of_nat 1) with (a + 1) by lia.
    eapply walk_edge. left; reflexivity.
  - replace (a + Z.of_nat (S (S n))) with (a + 1 + Z.of_nat (S n)) by lia.
    eapply walk_step; [left; reflexivity|].
    assert (Hsub : forall G x y k ed, walk G x y k -> walk (ed :: G) x y k).
    { intros G x y k ed Hw.
      induction Hw; [eapply walk_edge|eapply walk_step]; eauto; right; eauto. }
    apply Hsub. apply IH. lia.
Qed.

Lemma path_length_query_text (s e : Z) :
  formatted (DQ.path_length_query s e)
    = path_length_head ++ str_of_int s ++ path_length_middle
        ++ str_of_int e ++ path_length_tail.
Proof. reflexivity. Qed.

(** C9, as the code has it: the length query asks for walks of 1 to 100
    edges, whatever the two nodes are.  So for a pair that is joined in
    the graph but only by walks of more than 100 edges, a store that
    answers the query yields no row and [path_length] stays 0; and when
    the WARNING log call of the no-path branch does not raise, the request
    is answered with status 200, "No path found between the specified
    nodes." and [path_length] 0, although a path exists. *)
Theorem C9_paths_over_100_hops_not_found (G : Graph) (env : Env)
    (sn en : string) (s e : Z) (n : nat) :
  sn <> "" -> en <> "" ->
  py_int env sn = Some s -> py_int env en = Some e ->
  store_counts_hops G env s e ->
  walk G s e n ->
  (forall m, walk G s e m -> (100 < m)%nat) ->
  (forall t, log_text env t no_path_message WARNING = None) ->
  formatted (DQ.path_length_query s e)
    = path_length_head ++ str_of_int s
        ++ "})-[s:SEGMENTO | REVERSE_SEGMENTO]->{1, 100}(dest:NODO {NODEID: "
        ++ str_of_int e ++ path_length_tail
  /\ DQ.run_graph_query env (Some sn) (Some en)
     = (Responded (mkResponse (MessageBody no_path_message 0) 200),
        [ESql AtPathLength (formatted (DQ.path_length_query s e)) (SqlRows []);
         ELogText no_path_message WARNING None]).
Proof.
  intros Hsn Hen Hs He Hstore Hwalk Hfar Hlog.
  split; [apply path_length_query_text|].
  pose proof (proj1 (Hstore []) Hfar) as Hrows.
  rewrite (no_path_run env sn en s e) by (try assumption; now rewrite Hrows).
  now rewrite Hrows.
Qed.

(** C9 fails as stated: nodes 1 and 102 are joined by a walk of 101 edges
    and by no shorter one, the store yields no row for their length
    query, and yet, the WARNING log call raising, the request is answered
    with status 500 and not with the "no path" response. *)
Lemma C9_far_pair_with_failing_warning_is_an_error :
  store_counts_hops (line_graph 1 101) scenario_warn_down 1 102
  /\ walk (line_graph 1 101) 1 102 101
  /\ (forall m, walk (line_graph 1 101) 1 102 m -> (100 < m)%nat)
  /\ DQ.run_graph_query scenario_warn_down (Some "1") (Some "102")
     = (Responded (mkResponse (ErrorBody "An error occurred: log down") 500),
        [ESql AtPathLength (formatted (DQ.path_length_query 1 102)) (SqlRows []);
         ELogText no_path_message WARNING (Some "log down");
         ELogText "An error occurred: log down" ERROR None]).
Proof.
  split; [|split; [|split]].
  - intros t. split; [reflexivity|].
    intros n Hn Hwalk. apply line_graph_walk in Hwalk. lia.
  - apply (line_graph_has_walk 101 1). lia.
  - intros m Hwalk. apply line_graph_walk in Hwalk. lia.
  - vm_compute. reflexivity.
Qed.

(** ** Boundary discovery that finds no node *)

Lemma split_In {A : Type} (l t1 t2 : list A) (x : A) :
  l = (t1 ++ x :: t2)%list -> In x l.
Proof. intros ->. apply in_elt. Qed.

Lemma split_app_cases {A : Type} (l l' : list A) (x : A) :
  forall t1 t2,
    (l ++ l')%list = (t1 ++ x :: t2)%list ->
    (exists m, l = (t1 ++ x :: m)%list /\ t2 = (m ++ l')%list)
    \/ (exists m, t1 = (l ++ m)%list /\ l' = (m ++ x :: t2)%list).
Proof.
  induction l as [|a l IH]; intros t1 t2 H.
  - right. now exists t1.
  - destruct t1 as [|b t1]; cbn [app] in H; injection H as -> H.
    + left. exists l. now subst.
    + destruct (IH _ _ H) as [(m & -> & ->)|(m & -> & ->)].
      * left. now exists m.
      * right. now exists m.
Qed.

Ltac no_missing :=
  match goal with
  | H : _ = (_ ++ ?ev :: _)%list, Hm : missing_boundary ?ev = true |- _ =>
      solve [ apply split_In in H; cbn [In app] in H;
              repeat (destruct H as [H|H]; [subst; cbn in Hm; congruence|]);
              contradiction ]
  end.

Lemma boundary_step_found (end_node_id r cur nxt : Z) (pre : list Event) :
  boundary_step end_node_id r cur nxt pre ->
  forall ev, In ev pre -> missing_boundary ev = false.
Proof.
  destruct 1 as [|btext result nxt Hr Hq Ha]; intros ev Hin; cbn [In] in Hin.
  - contradiction.
  - destruct Hin as [<-|[]]. cbn. now rewrite Ha.
Qed.

Lemma iteration_missing (end_node_id : Z) (st : DQ.LoopState)
    (res : Res DQ.LoopState) (evs : list Event) :
  iteration_step end_node_id st res evs ->
  forall t1 ev t2,
    evs = (t1 ++ ev :: t2)%list -> missing_boundary ev = true ->
    exists cur raised,
      t2 = [ELogText (missing_message cur 20) ERROR raised] /\
      res = match raised with
            | None => Returned (missing_response cur)
            | Some err => Raised err
            end.
Proof.
  destruct 1 as [r cur outs q nxt pre text rows new Hb
                |r cur outs q nxt pre text result e Hb
                |r cur outs q btext result e Hr Hq Ha
                |r cur outs q btext result Hr Hq Ha
                |r cur outs q btext result e Hr Hq Ha];
    intros t1 ev t2 Hsplit Hm.
  - apply split_In in Hsplit. apply in_app_or in Hsplit as [Hin|[<-|[]]].
    + rewrite (boundary_step_found _ _ _ _ _ Hb _ Hin) in Hm. discriminate.
    + discriminate.
  - apply split_In in Hsplit. apply in_app_or in Hsplit as [Hin|[<-|[]]].
    + rewrite (boundary_step_found _ _ _ _ _ Hb _ Hin) in Hm. discriminate.
    + discriminate.
  - apply split_In in Hsplit. destruct Hsplit as [<-|[]].
    cbn in Hm. rewrite Ha in Hm. discriminate.
  - destruct t1 as [|a t1]; cbn [app] in Hsplit; injection Hsplit as <- Hsplit.
    + exists cur, None. now subst.
    + no_missing.
  - destruct t1 as [|a t1]; cbn [app] in Hsplit; injection Hsplit as <- Hsplit.
    + exists cur, (Some e). now subst.
    + no_missing.
Qed.

Lemma loop_run_missing (end_node_id : Z) (st : DQ.LoopState)
    (res : Res (list Output * string)) (evs : list Event) :
  loop_run end_node_id st res evs ->
  forall t1 ev t2,
    evs = (t1 ++ ev :: t2)%list -> missing_boundary ev = true ->
    exists cur raised,
      t2 = [ELogText (missing_message cur 20) ERROR raised] /\
      res = match raised with
            | None => Returned (missing_response cur)
            | Some err => Raised err
            end.
Proof.
  induction 1 as [r cur outs q Hr
                 |r cur outs q st' evs res evs' Hr Hstep Hrun IH
                 |r cur outs q e evs Hr Hstep
                 |r cur outs q resp evs Hr Hstep];
    intros t1 ev t2 Hsplit Hm.
  - now destruct t1.
  - apply split_app_cases in Hsplit as [(m & Hevs & ->)|(m & -> & Hevs)].
    + destruct (iteration_missing _ _ _ _ Hstep _ _ _ Hevs Hm)
        as (c & [err|] & _ & Hres); discriminate.
    + exact (IH _ _ _ Hevs Hm).
  - destruct (iteration_missing _ _ _ _ Hstep _ _ _ Hsplit Hm)
      as (c & [err|] & -> & Hres); [|discriminate].
    injection Hres as ->. now exists c, (Some err).
  - destruct (iteration_missing _ _ _ _ Hstep _ _ _ Hsplit Hm)
      as (c & [err|] & -> & Hres); [discriminate|].
    injection Hres as ->. now exists c, None.
Qed.

Lemma resolve_step_missing (s e : Z) (res : Res Response) (evs : list Event) :
  resolve_step s e res evs ->
  forall t1 ev t2,
    evs = (t1 ++ ev :: t2)%list -> missing_boundary ev = true ->
    exists cur raised,
      t2 = [ELogText (missing_message cur 20) ERROR raised] /\
      res = match raised with
            | None => Returned (missing_response cur)
            | Some err => Raised err
            end.
Proof.
  destruct 1 as [text result err Ht Hl
                |text result Ht Hl
                |text result err Ht Hl
                |text result L outs q evs res fin Ht Hl HL Hloop Hfin
                |text result L evs err Ht Hl HL Hloop
                |text result L evs resp Ht Hl HL Hloop
                |text result L qtext rows outs res fin Ht Hl HL0 HL Hq Hrows Hfin
                |text result L qtext fetched err Ht Hl HL0 HL Hq Hf];
    intros t1 ev t2 Hsplit Hm; try no_missing.
  - destruct t1 as [|a t1]; cbn [app] in Hsplit; injection Hsplit as <- Hsplit;
      [discriminate|].
    apply split_app_cases in Hsplit as [(m & Hevs & ->)|(m & -> & Hevs)].
    + destruct (loop_run_missing _ _ _ _ Hloop _ _ _ Hevs Hm)
        as (c & [err|] & _ & Hres); discriminate.
    + destruct Hfin; no_missing.
  - destruct t1 as [|a t1]; cbn [app] in Hsplit; injection Hsplit as <- Hsplit;
      [discriminate|].
    destruct (loop_run_missing _ _ _ _ Hloop _ _ _ Hsplit Hm)
      as (c & raised & -> & Hres).
    exists c, raised. split; [reflexivity|].
    destruct raised; [injection Hres as ->; reflexivity|discriminate].
  - destruct t1 as [|a t1]; cbn [app] in Hsplit; injection Hsplit as <- Hsplit;
      [discriminate|].
    destruct (loop_run_missing _ _ _ _ Hloop _ _ _ Hsplit Hm)
      as (c & raised & -> & Hres).
    exists c, raised. split; [reflexivity|].
    destruct raised; [discriminate|injection Hres as ->; reflexivity].
  - destruct Hfin; no_missing.
Qed.

(** C5: whenever a boundary-discovery query of a request leaves
    [intermediate_end_node] absent (no row, or a row whose node is NULL),
    the request ends in an error and no store query is issued after that
    boundary query: what follows it is the error log call alone, or that
    call and the log call of the [except] clause when the first one raised.
    When the error log call does not raise, the response is the 500 error
    "Could not find an intermediate node from <start> at distance 20". *)
Theorem C5_missing_boundary_aborts (env : Env) (start_node end_node : option string)
    (out : Outcome) (tr t1 t2 : Trace) (ev : Event) :
  DQ.run_graph_query env start_node end_node = (out, tr) ->
  tr = (t1 ++ ev :: t2)%list ->
  missing_boundary ev = true ->
  error_outcome out
  /\ sql_sites t2 = []
  /\ exists cur raised rest,
       t2 = ELogText (missing_message cur 20) ERROR raised :: rest
       /\ (raised = None -> rest = [] /\ out = Responded (missing_response cur)).
Proof.
  intros Hrun Hsplit Hm. apply DQ_run_sound in Hrun.
  destruct Hrun as [msg|msg err|sn en s e resp evs Hsn Hen Hs He Hstep
                   |sn en s e err evs Hsn Hen Hs He Hstep
                   |sn en s e err err' evs Hsn Hen Hs He Hstep];
    try no_missing.
  - destruct (resolve_step_missing _ _ _ _ Hstep _ _ _ Hsplit Hm)
      as (c & [err|] & -> & Hres); [discriminate|].
    injection Hres as ->.
    repeat split; try reflexivity.
    exists c, None, []. auto.
  - apply split_app_cases in Hsplit as [(m & Hevs & ->)|(m & -> & Hevs)];
      [|no_missing].
    destruct (resolve_step_missing _ _ _ _ Hstep _ _ _ Hevs Hm)
      as (c & [err0|] & -> & Hres); [|discriminate].
    repeat split; try reflexivity.
    eexists c, (Some err0), _. split; [reflexivity|discriminate].
  - apply split_app_cases in Hsplit as [(m & Hevs & ->)|(m & -> & Hevs)];
      [|no_missing].
    destruct (resolve_step_missing _ _ _ _ Hstep _ _ _ Hevs Hm)
      as (c & [err0|] & -> & Hres); [|discriminate].
    repeat split; try reflexivity.
    eexists c, (Some err0), _. split; [reflexivity|discriminate].
Qed.

(** ** Assembly of the fetched segments *)

Lemma fetched_outputs_app (t1 t2 : Trace) :
  fetched_outputs (t1 ++ t2)%list = (fetched_outputs t1 ++ fetched_outputs t2)%list.
Proof. apply flat_map_app. Qed.

Lemma boundary_step_no_fetch (end_node_id r cur nxt : Z) (pre : list Event) :
  boundary_step end_node_id r cur nxt pre -> fetched_outputs pre = [].
Proof. destruct 1; reflexivity. Qed.

Lemma loop_run_outputs (end_node_id : Z) (st : DQ.LoopState)
    (res : Res (list Output * string)) (evs : list Event) :
  loop_run end_node_id st res evs ->
  forall final, res = Val final ->
  fst final = (snd (fst st) ++ fetched_outputs evs)%list.
Proof.
  induction 1 as [r cur outs q Hr
                 |r cur outs q st' evs res evs' Hr Hstep Hrun IH| |];
    intros final Hres; try discriminate.
  - injection Hres as <-. cbn. now rewrite app_nil_r.
  - rewrite (IH _ Hres).
    inversion Hstep as [r0 cur0 outs0 q0 nxt pre text rows new Hb Hc Hn| | | |]; subst.
    rewrite !fetched_outputs_app, (boundary_step_no_fetch _ _ _ _ _ Hb).
    cbn. rewrite Hn. now rewrite app_nil_r, app_assoc.
Qed.

(** C3, as the code has it: the handler appends the rows of each fetch to
    the output list in fetch order and checks nothing.  Whenever a request
    is answered with an edge list, that list is exactly the concatenation
    of the rows the store returned to the segment fetches (or to the
    single fetch), whether or not consecutive segments meet. *)
Theorem C3_assembly_is_plain_concatenation (env : Env)
    (start_node end_node : option string) (outs : list Output) (tr : Trace) :
  DQ.run_graph_query env start_node end_node
    = (Responded (jsonify (OutputsBody outs)), tr) ->
  outs = fetched_outputs tr.
Proof.
  intros Hrun.
  destruct (DQ_success_inv _ _ _ _ _ Hrun)
    as (sn & en & s & e & text & result & L & _ & _ & _ & _ & _ & _ & Hcases).
  destruct Hcases as [(_ & q & evs & Hloop & ->)|(_ & _ & qtext & rows & _ & Hrows & ->)].
  - pose proof (loop_run_outputs _ _ _ _ Hloop _ eq_refl) as Houts.
    cbn [fst snd] in Houts. cbn [app] in Houts. rewrite Houts.
    change (ESql AtPathLength text result :: ?l)
      with ([ESql AtPathLength text result] ++ l)%list.
    rewrite !fetched_outputs_app. cbn. now rewrite app_nil_r.
  - cbn. rewrite Hrows. now rewrite app_nil_r.
Qed.

(** C3 fails as stated: against a store whose second segment starts at
    node 77 although the first one ended at node 21, the request is
    answered with status 200 and the list of the 21 fetched edges, whose
    edges 20 and 21 do not meet. *)
Lemma C3_gap_is_returned :
  exists outs tr,
    DQ.run_graph_query scenario_gap (Some "1") (Some "500")
      = (Responded (mkResponse (OutputsBody outs) 200), tr)
    /\ nth_error outs 19 = Some (mkOutput (Some 20) (Some 1020) (Some 21))
    /\ nth_error outs 20 = Some (mkOutput (Some 77) (Some 5) (Some 500))
    /\ contiguous outs = false.
Proof.
  do 2 eexists. split; [vm_compute; reflexivity|].
  repeat split; vm_compute; reflexivity.
Qed.

(** ** Boundary discovery *)

Lemma texts_at_end_node_nil (t : Trace) (cur : Z) :
  texts_at AtEndNode t = [] -> follows_boundaries cur t.
Proof.
  induction t as [|ev t IH]; [easy|].
  destruct ev as [[] text result| |]; cbn; try exact IH. discriminate.
Qed.

Lemma follows_boundaries_app (t1 t2 : Trace) :
  forall cur,
    follows_boundaries cur t1 -> texts_at AtEndNode t2 = [] ->
    follows_boundaries cur (t1 ++ t2)%list.
Proof.
  induction t1 as [|ev t1 IH]; intros cur H1 H2; cbn [app].
  - now apply texts_at_end_node_nil.
  - destruct ev as [[] text result| |]; cbn in *; auto.
    destruct H1 as [Hq H1]. split; [assumption|].
    destruct (boundary_answer result) as [[nxt|]|]; auto;
      rewrite texts_at_app, H1, H2; reflexivity.
Qed.

Lemma loop_run_follows (end_node_id : Z) (st : DQ.LoopState)
    (res : Res (list Output * string)) (evs : list Event) :
  loop_run end_node_id st res evs ->
  follows_boundaries (snd (fst (fst st))) evs.
Proof.
  induction 1 as [r cur outs q Hr
                 |r cur outs q st' evs res evs' Hr Hstep Hrun IH
                 |r cur outs q e evs Hr Hstep
                 |r cur outs q resp evs Hr Hstep]; cbn [fst snd] in *.
  - exact I.
  - inversion Hstep as [r0 cur0 outs0 q0 nxt pre text rows new Hb Hc Hn| | | |]; subst.
    cbn [fst snd] in IH.
    destruct Hb as [Hlast|btext result nxt Hlong Hq Ha].
    + assert (evs' = []) as ->.
      { inversion Hrun; subst; try lia; reflexivity. }
      exact I.
    + cbn. rewrite Ha. auto.
  - inversion Hstep as [|r0 cur0 outs0 q0 nxt pre text result e0 Hb Hc Hf
                        |r0 cur0 outs0 q0 btext result e0 Hlong Hq Ha|
                        |r0 cur0 outs0 q0 btext result e0 Hlong Hq Ha]; subst.
    + destruct Hb as [Hlast|btext bres nxt Hlong Hq Ha]; cbn; [exact I|].
      rewrite Ha. auto.
    + cbn. now rewrite Ha.
    + cbn. now rewrite Ha.
  - inversion Hstep as [| | |r0 cur0 outs0 q0 btext result Hlong Hq Ha|]; subst.
    cbn. now rewrite Ha.
Qed.

Lemma resolve_step_follows (s e : Z) (res : Res Response) (evs : list Event) :
  resolve_step s e res evs -> follows_boundaries s evs.
Proof.
  destruct 1 as [| | |text result L outs q evs res fin Ht Hl HL Hloop Hfin
                |text result L evs err Ht Hl HL Hloop
                |text result L evs resp Ht Hl HL Hloop
                |text result L qtext rows outs res fin Ht Hl HL0 HL Hq Hrows Hfin|];
    try exact I; cbn [follows_boundaries].
  - apply follows_boundaries_app; [exact (loop_run_follows _ _ _ _ Hloop)|].
    now destruct Hfin.
  - exact (loop_run_follows _ _ _ _ Hloop).
  - exact (loop_run_follows _ _ _ _ Hloop).
  - now destruct Hfin.
Qed.

(** C6, as the code has it: the boundary-discovery query takes the current
    start node and the hop count 20, and nothing else.  Along any request
    whose start node parses to [s], the boundary queries are those of a
    walk from [s]: the first asks for a node at distance 20 from [s], and
    each later one for a node at distance 20 from the node the previous
    one returned; the destination takes no part in them. *)
Theorem C6_boundary_query_ignores_destination (env : Env)
    (start_node end_node : option string) (out : Outcome) (tr : Trace)
    (sn : string) (s : Z) :
  DQ.run_graph_query env start_node end_node = (out, tr) ->
  start_node = Some sn ->
  py_int env sn = Some s ->
  follows_boundaries s tr.
Proof.
  intros Hrun Hsn Hs. apply DQ_run_sound in Hrun.
  destruct Hrun as [msg|msg err|sn' en s' e resp evs Hsn' Hen Hs' He Hstep
                   |sn' en s' e err evs Hsn' Hen Hs' He Hstep
                   |sn' en s' e err err' evs Hsn' Hen Hs' He Hstep];
    try exact I;
    assert (s' = s) as -> by congruence.
  - exact (resolve_step_follows _ _ _ _ Hstep).
  - apply follows_boundaries_app; [exact (resolve_step_follows _ _ _ _ Hstep)|reflexivity].
  - apply follows_boundaries_app; [exact (resolve_step_follows _ _ _ _ Hstep)|reflexivity].
Qed.

(** C6 fails as stated: for the destinations 500 and 900, both 47 hops
    from node 1, the request issues the very same boundary query, in which
    neither destination occurs. *)
Lemma C6_same_boundary_query_for_two_destinations :
  texts_at AtEndNode
    (snd (DQ.run_graph_query scenario_two_targets (Some "1") (Some "500")))
    = [formatted (DQ.end_node_query 1 20)]
  /\ texts_at AtEndNode
       (snd (DQ.run_graph_query scenario_two_targets (Some "1") (Some "900")))
     = [formatted (DQ.end_node_query 1 20)]
  /\ index 0 "500" (formatted (DQ.end_node_query 1 20)) = None
  /\ index 0 "900" (formatted (DQ.end_node_query 1 20)) = None.
Proof. repeat split; vm_compute; reflexivity. Qed.

(** ** Query texts *)

Lemma string_forall_app (p : ascii -> bool) (a b : string) :
  string_forall p (a ++ b) = string_forall p a && string_forall p b.
Proof.
  induction a as [|c a IH]; cbn; [reflexivity|].
  now rewrite IH, andb_assoc.
Qed.

Lemma string_of_uint_decimal (d : Decimal.uint) :
  string_forall decimal_char (NilEmpty.string_of_uint d) = true.
Proof. induction d; cbn; auto. Qed.

Lemma str_of_int_decimal (n : Z) : string_forall decimal_char (str_of_int n) = true.
Proof.
  unfold str_of_int. destruct (Z.to_int n) as [d|d]; cbn;
    apply string_of_uint_decimal.
Qed.

Lemma string_forall_weaken (p q : ascii -> bool) (s : string) :
  (forall c, p c = true -> q c = true) ->
  string_forall p s = true -> string_forall q s = true.
Proof.
  intros Hpq. induction s as [|c s IH]; cbn; [reflexivity|].
  intros H. apply andb_true_iff in H as [Hc Hs].
  now rewrite (Hpq _ Hc), IH.
Qed.

(** Formatting adds decimal characters only. *)
Lemma py_format_from_chars (whole : string) (kw : kwargs) (template : string) :
  forall st text,
    (forall c, occurs c template = true -> occurs c whole = true) ->
    py_format_from st template kw = inr text ->
    string_forall (fun c => decimal_char c || occurs c whole) text = true.
Proof.
  induction template as [|c rest IH]; intros st text Hsub; cbn [py_format_from].
  - destruct st; try discriminate. now intros [= <-].
  - assert (Hrest : forall c', occurs c' rest = true -> occurs c' whole = true).
    { intros c' Hc'. apply Hsub. cbn. now rewrite Hc', orb_true_r. }
    assert (Hc : occurs c whole = true).
    { apply Hsub. cbn. now rewrite Ascii.eqb_refl. }
    assert (Hemit : forall piece st' text',
      string_forall (fun c => decimal_char c || occurs c whole) piece = true ->
      match py_format_from st' rest kw with
      | inl e => inl e
      | inr s => inr (piece ++ s)
      end = inr text' ->
      string_forall (fun c => decimal_char c || occurs c whole) text' = true).
    { intros piece st' text' Hpiece.
      destruct (py_format_from st' rest kw) as [err|tail] eqn:Htail;
        [discriminate|].
      intros [= <-]. rewrite string_forall_app, Hpiece.
      exact (IH _ _ Hrest Htail). }
    destruct st as [| |name|].
    + destruct (Ascii.eqb c "{") eqn:Eo; [now apply IH|].
      destruct (Ascii.eqb c "}") eqn:Ec; [now apply IH|].
      apply Hemit. cbn. now rewrite Hc, orb_true_r.
    + destruct (Ascii.eqb c "{") eqn:Eo.
      * apply Ascii.eqb_eq in Eo. subst c.
        apply Hemit. cbn. now rewrite Hc.
      * destruct (Ascii.eqb c "}"); [discriminate|now apply IH].
    + destruct (Ascii.eqb c "}"); [|now apply IH].
      destruct (kw_lookup name kw) as [v|]; [|discriminate].
      apply Hemit.
      apply (string_forall_weaken decimal_char); [|apply str_of_int_decimal].
      intros c' ->. reflexivity.
    + destruct (Ascii.eqb c "}") eqn:Ec; [|discriminate].
      apply Ascii.eqb_eq in Ec. subst c.
      apply Hemit. cbn. now rewrite Hc.
Qed.

Lemma formatted_query_intro (site : Site) (kw : kwargs) (text : string)
    (result : SqlResult) :
  py_format (site_template site) kw = inr text ->
  formatted_query (ESql site text result).
Proof.
  intros H. split; [now exists kw|].
  exact (py_format_from_chars _ kw _ FText text (fun _ Hc => Hc) H).
Qed.

Lemma formatted_basic (s e : Z) (text : string) (result : SqlResult) :
  Basic.gql_query s e = inr text -> formatted_query (ESql AtBasic text result).
Proof. exact (formatted_query_intro AtBasic _ text result). Qed.

Lemma formatted_path_length (s e : Z) (text : string) (result : SqlResult) :
  DQ.path_length_query s e = inr text ->
  formatted_query (ESql AtPathLength text result).
Proof. exact (formatted_query_intro AtPathLength _ text result). Qed.

Lemma formatted_end_node (s k : Z) (text : string) (result : SqlResult) :
  DQ.end_node_query s k = inr text -> formatted_query (ESql AtEndNode text result).
Proof. exact (formatted_query_intro AtEndNode _ text result). Qed.

Lemma formatted_chunk (s e k : Z) (text : string) (result : SqlResult) :
  DQ.gql_query_chunk s e k = inr text -> formatted_query (ESql AtChunk text result).
Proof. exact (formatted_query_intro AtChunk _ text result). Qed.

Lemma formatted_main (s e k : Z) (text : string) (result : SqlResult) :
  DQ.gql_query s e k = inr text -> formatted_query (ESql AtMain text result).
Proof. exact (formatted_query_intro AtMain _ text result). Qed.

Lemma formatted_log_text (msg : string) (sev : Severity) (raised : option string) :
  formatted_query (ELogText msg sev raised).
Proof. exact I. Qed.

Lemma formatted_log_struct (entry : StructEntry) (sev : Severity)
    (raised : option string) :
  formatted_query (ELogStruct entry sev raised).
Proof. exact I. Qed.

Create HintDb formatted.
#[local] Hint Resolve formatted_basic formatted_path_length formatted_end_node
  formatted_chunk formatted_main formatted_log_text formatted_log_struct
  Forall_nil Forall_cons : formatted.

Lemma Forall_app_intro {A : Type} (P : A -> Prop) (l1 l2 : list A) :
  Forall P l1 -> Forall P l2 -> Forall P (l1 ++ l2)%list.
Proof. intros. apply Forall_app. now split. Qed.

Lemma boundary_step_formatted (end_node_id r cur nxt : Z) (pre : list Event) :
  boundary_step end_node_id r cur nxt pre -> Forall formatted_query pre.
Proof. destruct 1; eauto with formatted. Qed.

Lemma iteration_step_formatted (end_node_id : Z) (st : DQ.LoopState)
    (res : Res DQ.LoopState) (evs : list Event) :
  iteration_step end_node_id st res evs -> Forall formatted_query evs.
Proof.
  destruct 1;
    try (apply Forall_app_intro; [eapply boundary_step_formatted; eassumption|]);
    eauto with formatted.
Qed.

Lemma loop_run_formatted (end_node_id : Z) (st : DQ.LoopState)
    (res : Res (list Output * string)) (evs : list Event) :
  loop_run end_node_id st res evs -> Forall formatted_query evs.
Proof.
  induction 1; eauto using iteration_step_formatted, Forall_app_intro.
Qed.

Lemma finish_step_formatted (s e : Z) (q : string) (outs : list Output)
    (res : Res Response) (fin : list Event) :
  finish_step s e q outs res fin -> Forall formatted_query fin.
Proof. destruct 1; eauto with formatted. Qed.

Lemma resolve_step_formatted (s e : Z) (res : Res Response) (evs : list Event) :
  resolve_step s e res evs -> Forall formatted_query evs.
Proof.
  destruct 1; repeat (apply Forall_cons; [eauto with formatted|]);
    eauto using Forall_app_intro, loop_run_formatted, finish_step_formatted.
Qed.

Lemma basic_step_formatted (s e : Z) (res : Res Response) (evs : list Event) :
  basic_step s e res evs -> Forall formatted_query evs.
Proof.
  destruct 1; repeat (apply Forall_cons; [eauto with formatted|]);
    eauto using finish_step_formatted.
Qed.

Lemma request_run_formatted (env : Env)
    (step : Z -> Z -> Res Response -> list Event -> Prop)
    (start_node end_node : option string) (out : Outcome) (tr : Trace) :
  (forall s e res evs, step s e res evs -> Forall formatted_query evs) ->
  request_run env step start_node end_node out tr ->
  Forall formatted_query tr.
Proof.
  intros Hstep.
  destruct 1; eauto using Forall_app_intro with formatted.
Qed.

(** C7, as the code has it: every query text sent to the store, by either
    handler, is produced by [str.format] from the template of its call
    site, with the decimal renderings of integers substituted into the
    text; no parameter is bound.  The substituted values being integers,
    the text holds, beyond the template's own characters, only digits and
    minus signs. *)
Theorem C7_queries_are_formatted_text (env : Env)
    (start_node end_node : option string) (out : Outcome) (tr : Trace) :
  Basic.run_graph_query env start_node end_node = (out, tr)
  \/ DQ.run_graph_query env start_node end_node = (out, tr) ->
  Forall formatted_query tr.
Proof.
  intros [Hrun|Hrun].
  - apply Basic_run_sound in Hrun.
    exact (request_run_formatted _ _ _ _ _ _ basic_step_formatted Hrun).
  - apply DQ_run_sound in Hrun.
    exact (request_run_formatted _ _ _ _ _ _ resolve_step_formatted Hrun).
Qed.

(** C7 fails as stated: the text sent to the store is not independent of
    the values.  Both handlers send a different text for start node 7 and
    for start node 8, and the value occurs literally in the text. *)
Lemma C7_query_text_depends_on_values :
  ~ value_independent
      (fun sn => texts_at AtPathLength
                   (snd (DQ.run_graph_query empty_store (Some sn) (Some "9"))))
  /\ ~ value_independent
        (fun sn => texts_at AtBasic
                     (snd (Basic.run_graph_query empty_store (Some sn) (Some "9"))))
  /\ texts_at AtPathLength
       (snd (DQ.run_graph_query empty_store (Some "7") (Some "9")))
     = [path_length_head ++ "7" ++ path_length_middle ++ "9" ++ path_length_tail].
Proof.
  split; [|split].
  - intros H. specialize (H "7" "8"). vm_compute in H. discriminate H.
  - intros H. specialize (H "7" "8"). vm_compute in H. discriminate H.
  - vm_compute. reflexivity.
Qed.

(** ** The structured log call *)

Lemma boundary_step_no_log (end_node_id r cur nxt : Z) (pre : list Event) :
  boundary_step end_node_id r cur nxt pre ->
  Forall (fun ev => is_log_struct ev = false) pre.
Proof. destruct 1; repeat constructor. Qed.

Lemma iteration_step_no_log (end_node_id : Z) (st : DQ.LoopState)
    (res : Res DQ.LoopState) (evs : list Event) :
  iteration_step end_node_id st res evs ->
  Forall (fun ev => is_log_struct ev = false) evs.
Proof.
  destruct 1;
    try (apply Forall_app_intro; [eapply boundary_step_no_log; eassumption|]);
    repeat constructor.
Qed.

Lemma loop_run_no_log (end_node_id : Z) (st : DQ.LoopState)
    (res : Res (list Output * string)) (evs : list Event) :
  loop_run end_node_id st res evs ->
  Forall (fun ev => is_log_struct ev = false) evs.
Proof.
  induction 1; eauto using iteration_step_no_log, Forall_app_intro.
Qed.

Lemma finish_step_struct (s e : Z) (q : string) (outs : list Output)
    (res : Res Response) (fin : list Event) (pre : list Event) :
  finish_step s e q outs res fin ->
  Forall (fun ev => is_log_struct ev = false) pre ->
  struct_log_last res (pre ++ fin).
Proof.
  intros Hfin Hpre. right.
  destruct Hfin as [|err].
  - exists pre, (success_entry s e q outs), None. auto.
  - exists pre, (success_entry s e q outs), (Some err). auto.
Qed.

Lemma resolve_step_struct (s e : Z) (res : Res Response) (evs : list Event) :
  resolve_step s e res evs -> struct_log_last res evs.
Proof.
  destruct 1 as [text result err Ht Hl
                |text result Ht Hl
                |text result err Ht Hl
                |text result L outs q evs res fin Ht Hl HL Hloop Hfin
                |text result L evs err Ht Hl HL Hloop
                |text result L evs resp Ht Hl HL Hloop
                |text result L qtext rows outs res fin Ht Hl HL0 HL Hq Hrows Hfin
                |text result L qtext fetched err Ht Hl HL0 HL Hq Hf];
    try solve [left; split; [repeat constructor|discriminate]].
  - change (ESql AtPathLength text result :: evs ++ fin)%list
      with ((ESql AtPathLength text result :: evs) ++ fin)%list.
    eapply finish_step_struct; eauto.
    constructor; [reflexivity|exact (loop_run_no_log _ _ _ _ Hloop)].
  - left. split; [|discriminate].
    constructor; [reflexivity|exact (loop_run_no_log _ _ _ _ Hloop)].
  - left. split.
    + constructor; [reflexivity|exact (loop_run_no_log _ _ _ _ Hloop)].
    + destruct (loop_returned_response _ _ _ _ Hloop _ eq_refl) as [c ->].
      discriminate.
  - change (ESql AtPathLength text result :: ESql AtMain qtext (SqlRows rows) :: fin)
      with ([ESql AtPathLength text result; ESql AtMain qtext (SqlRows rows)] ++ fin)%list.
    eapply finish_step_struct; eauto; repeat constructor.
Qed.

Lemma basic_step_struct (s e : Z) (res : Res Response) (evs : list Event) :
  basic_step s e res evs -> struct_log_last res evs.
Proof.
  destruct 1 as [text rows outs res fin Ht Hrows Hfin|text fetched err Ht Hf].
  - change (ESql AtBasic text (SqlRows rows) :: fin)
      with ([ESql AtBasic text (SqlRows rows)] ++ fin)%list.
    eapply finish_step_struct; eauto; repeat constructor.
  - left. split; [repeat constructor|discriminate].
Qed.

Lemma struct_log_raised (res : Res Response) (evs : list Event)
    (entry : StructEntry) (sev : Severity) (err : string) :
  struct_log_last res evs ->
  In (ELogStruct entry sev (Some err)) evs ->
  res = Raised err.
Proof.
  intros [[Hnone _]|(pre & entry' & raised & -> & Hpre & _ & ->)] Hin.
  - rewrite Forall_forall in Hnone. now apply Hnone in Hin.
  - apply in_app_or in Hin as [Hin|[[= -> <- ->]|[]]]; [|reflexivity].
    rewrite Forall_forall in Hpre. now apply Hpre in Hin.
Qed.

Lemma struct_log_returned (res : Res Response) (evs : list Event)
    (outs : list Output) :
  struct_log_last res evs ->
  res = Returned (jsonify (OutputsBody outs)) ->
  exists pre entry,
    evs = (pre ++ [ELogStruct entry INFO None])%list
    /\ entry_results entry = outs
    /\ entry_result_count entry = List.length outs
    /\ Forall (fun ev => is_log_struct ev = false) pre.
Proof.
  intros [[_ Hne]|(pre & entry & [err|] & -> & Hpre & Hcount & ->)] Hres.
  - now apply Hne in Hres.
  - discriminate.
  - injection Hres as <-. now exists pre, entry.
Qed.

Lemma request_run_struct (env : Env)
    (step : Z -> Z -> Res Response -> list Event -> Prop)
    (start_node end_node : option string) (out : Outcome) (tr : Trace) :
  (forall s e res evs, step s e res evs -> struct_log_last res evs) ->
  request_run env step start_node end_node out tr ->
  (forall entry sev err,
     In (ELogStruct entry sev (Some err)) tr ->
     out = Responded (error_response err) \/ exists err', out = Unhandled err')
  /\ (forall outs,
        out = Responded (jsonify (OutputsBody outs)) ->
        exists pre entry,
          tr = (pre ++ [ELogStruct entry INFO None])%list
          /\ entry_results entry = outs
          /\ entry_result_count entry = List.length outs
          /\ Forall (fun ev => is_log_struct ev = false) pre).
Proof.
  intros Hstep
    [msg|msg err0|sn en s e resp evs Hsn Hen Hs He Hrun
    |sn en s e err0 evs Hsn Hen Hs He Hrun
    |sn en s e err0 err1 evs Hsn Hen Hs He Hrun].
  - split; [intros entry sev err [Hin|[]]|intros outs Hout]; discriminate.
  - split; [intros entry sev err [Hin|[]]|intros outs Hout]; discriminate.
  - apply Hstep in Hrun. split.
    + intros entry sev err Hin.
      pose proof (struct_log_raised _ _ _ _ _ Hrun Hin). discriminate.
    + intros outs [= ->]. exact (struct_log_returned _ _ _ Hrun eq_refl).
  - apply Hstep in Hrun. split; [|discriminate].
    intros entry sev err Hin. left.
    apply in_app_or in Hin as [Hin|[Hin|[]]]; [|discriminate].
    pose proof (struct_log_raised _ _ _ _ _ Hrun Hin) as [= ->]. reflexivity.
  - split; [|discriminate]. intros entry sev err Hin. right. now exists err1.
Qed.

(** C8, as the code has it: the structured log call is the last statement
    but one of the [try] block of either handler, so the handler depends
    on it.  If the call raises, the request does not return its edge list:
    it is answered by the [except] clause with the 500 response
    "An error occurred: <exception>", or ends in the exception of the
    error log call.  A request answered with its edge list made the call
    exactly once, as its last interaction, with that list, and the call
    did not raise. *)
Theorem C8_logging_failure_fails_request (env : Env)
    (start_node end_node : option string) (out : Outcome) (tr : Trace) :
  Basic.run_graph_query env start_node end_node = (out, tr)
  \/ DQ.run_graph_query env start_node end_node = (out, tr) ->
  (forall entry sev err,
     In (ELogStruct entry sev (Some err)) tr ->
     out = Responded (error_response err) \/ exists err', out = Unhandled err')
  /\ (forall outs,
        out = Responded (jsonify (OutputsBody outs)) ->
        exists pre entry,
          tr = (pre ++ [ELogStruct entry INFO None])%list
          /\ entry_results entry = outs
          /\ entry_result_count entry = List.length outs
          /\ Forall (fun ev => is_log_struct ev = false) pre).
Proof.
  intros [Hrun|Hrun].
  - apply Basic_run_sound in Hrun.
    exact (request_run_struct _ _ _ _ _ _ basic_step_struct Hrun).
  - apply DQ_run_sound in Hrun.
    exact (request_run_struct _ _ _ _ _ _ resolve_step_struct Hrun).
Qed.

(** C8 fails as stated: with a store that serves the three edges from
    node 1 to node 4 and a logging sink whose structured call raises, both
    handlers fetch the three edges and then answer the request with the
    500 error response. *)
Lemma C8_logging_failure_turns_success_into_error :
  (let (out, tr) := DQ.run_graph_query scenario_log_down (Some "1") (Some "4") in
   out = Responded (mkResponse
           (ErrorBody "An error occurred: logging unavailable") 500)
   /\ List.length (fetched_outputs tr) = 3%nat)
  /\ (let (out, tr) := Basic.run_graph_query scenario_log_down (Some "1") (Some "4") in
      out = Responded (mkResponse
              (ErrorBody "An error occurred: logging unavailable") 500)
      /\ sql_sites tr = [AtBasic]).
Proof. vm_compute. repeat split. Qed.

(** ** The scenario of the design document *)

(** Start 1, end 500, true length 47: three chunks of sizes 20, 20 and 7,
    two boundary queries, three segment fetches, 47 contiguous edges, the
    last of which ends at node 500. *)
Example scenario47_as_documented :
  sql_sites (snd run47)
    = [AtPathLength; AtEndNode; AtChunk; AtEndNode; AtChunk; AtChunk]
  /\ texts_at AtChunk (snd run47)
     = map segment_text [(1, 21, 20); (21, 41, 20); (41, 500, 7)]
  /\ (exists outs, fst run47 = Responded (mkResponse (OutputsBody outs) 200))
  /\ List.length (outputs_of (fst run47)) = 47%nat
  /\ contiguous (outputs_of (fst run47)) = true
  /\ option_map ENDNODEID (nth_error (outputs_of (fst run47)) 46) = Some (Some 500).
Proof.
  repeat split; try (vm_compute; reflexivity).
  eexists. vm_compute. reflexivity.
Qed.

(** ** The properties on recorded runs *)

(** The chunk plan of the 47-hop scenario. *)
Lemma C1_scenario47 :
  exists segs : list Segment,
    texts_at AtChunk (snd run47) = map segment_text segs
    /\ Z.of_nat (List.length segs) = (47 + 19) / 20
    /\ map segment_size segs
       = (repeat 20 (Z.to_nat ((47 + 19) / 20 - 1))
            ++ [47 - 20 * ((47 + 19) / 20 - 1)])%list
    /\ sum_sizes (map segment_size segs) = 47
    /\ Forall (fun k => 1 <= k <= 20) (map segment_size segs).
Proof.
  apply (C1_chunking_follows_plan scenario47 (Some "1") (Some "500")
           (outputs_of (fst run47)) (snd run47) 47).
  - vm_compute. reflexivity.
  - vm_compute. reflexivity.
  - lia.
Defined.


(** The response to the gapped scenario is what was fetched. *)
Lemma C3_scenario_gap : outputs_of (fst run_gap) = fetched_outputs (snd run_gap).
Proof.
  apply (C3_assembly_is_plain_concatenation scenario_gap (Some "1") (Some "500")).
  vm_compute. reflexivity.
Defined.

(** No path in the empty store. *)
Lemma C4_empty_store :
  DQ.run_graph_query empty_store (Some "1") (Some "5")
    = (Responded (mkResponse (MessageBody no_path_message 0) 200),
       [ESql AtPathLength (formatted (DQ.path_length_query 1 5))
          (execute_sql empty_store [] (formatted (DQ.path_length_query 1 5)));
        ELogText no_path_message WARNING None])
  /\ ~ error_outcome (fst (DQ.run_graph_query empty_store (Some "1") (Some "5"))).
Proof.
  apply (C4_no_path_is_success empty_store "1" "5" 1 5).
  - discriminate.
  - discriminate.
  - reflexivity.
  - reflexivity.
  - reflexivity.
  - intros t. reflexivity.
Defined.

(** The request that finds no node at distance 20 aborts. *)
Lemma C5_scenario_no_boundary :
  error_outcome (fst run_no_boundary)
  /\ sql_sites (skipn 2 (snd run_no_boundary)) = []
  /\ exists cur raised rest,
       skipn 2 (snd run_no_boundary)
         = ELogText (missing_message cur 20) ERROR raised :: rest
       /\ (raised = None ->
           rest = [] /\ fst run_no_boundary = Responded (missing_response cur)).
Proof.
  apply (C5_missing_boundary_aborts scenario_no_boundary (Some "1") (Some "500")
           (fst run_no_boundary) (snd run_no_boundary)
           (firstn 1 (snd run_no_boundary))
           (skipn 2 (snd run_no_boundary))
           (ESql AtEndNode (formatted (DQ.end_node_query 1 20)) (SqlRows []))).
  - vm_compute. reflexivity.
  - vm_compute. reflexivity.
  - reflexivity.
Defined.

(** The boundary queries of the 47-hop scenario walk from node 1. *)
Lemma C6_scenario47 : follows_boundaries 1 (snd run47).
Proof.
  apply (C6_boundary_query_ignores_destination scenario47 (Some "1") (Some "500")
           (fst run47) (snd run47) "1" 1).
  - vm_compute. reflexivity.
  - reflexivity.
  - reflexivity.
Defined.

(** The query texts of the 47-hop scenario. *)
Lemma C7_scenario47 : Forall formatted_query (snd run47).
Proof.
  apply (C7_queries_are_formatted_text scenario47 (Some "1") (Some "500")
           (fst run47) (snd run47)).
  right. vm_compute. reflexivity.
Defined.

(** The request whose structured log call raises. *)
Lemma C8_scenario_log_down :
  (forall entry sev err,
     In (ELogStruct entry sev (Some err)) (snd run_log_down) ->
     fst run_log_down = Responded (error_response err)
     \/ exists err', fst run_log_down = Unhandled err')
  /\ (forall outs,
        fst run_log_down = Responded (jsonify (OutputsBody outs)) ->
        exists pre entry,
          snd run_log_down = (pre ++ [ELogStruct entry INFO None])%list
          /\ entry_results entry = outs
          /\ entry_result_count entry = List.length outs
          /\ Forall (fun ev => is_log_struct ev = false) pre).
Proof.
  apply (C8_logging_failure_fails_request scenario_log_down (Some "1") (Some "4")).
  right. vm_compute. reflexivity.
Defined.

(** The two ends of a line of 101 edges. *)
Lemma C9_line_of_101_hops :
  formatted (DQ.path_length_query 1 102)
    = path_length_head ++ str_of_int 1
        ++ "})-[s:SEGMENTO | REVERSE_SEGMENTO]->{1, 100}(dest:NODO {NODEID: "
        ++ str_of_int 102 ++ path_length_tail
  /\ DQ.run_graph_query empty_store (Some "1") (Some "102")
     = (Responded (mkResponse (MessageBody no_path_message 0) 200),
        [ESql AtPathLength (formatted (DQ.path_length_query 1 102)) (SqlRows []);
         ELogText no_path_message WARNING None]).
Proof.
  apply (C9_paths_over_100_hops_not_found (line_graph 1 101) empty_store
           "1" "102" 1 102 101).
  - discriminate.
  - discriminate.
  - reflexivity.
  - reflexivity.
  - intros t. split; [reflexivity|].
    intros n Hn Hwalk. apply line_graph_walk in Hwalk. lia.
  - apply (line_graph_has_walk 101 1). lia.
  - intros m Hwalk. apply line_graph_walk in Hwalk. lia.
  - intros t. reflexivity.
Defined.

(** Three iterations are enough for 47 hops. *)
Lemma C10_scenario47 :
  fst (DQ.while_loop scenario47 3 500 (47, 1, [], "") []) <> Diverged
  /\ DQ.while_loop scenario47 3 500 (47, 1, [], "") []
     = DQ.while_loop scenario47 (Z.to_nat ((47 + 19) / 20)) 500 (47, 1, [], "") []
  /\ 1 <= Z.min 20 47 <= 47
  /\ 0 <= 47 - Z.min 20 47 < 47.
Proof.
  apply (C10_while_loop_terminates scenario47 500 47 1 [] "" [] 3).
  - lia.
  - vm_compute. lia.
Defined.

(** * Further properties *)

(** ** Argument validation *)

(** X1: when either argument is absent or empty, both handlers make the
    error log call and nothing else: no store query is issued, and the
    request is answered with status 400 and the message "Missing
    'start_node' or 'end_node' parameter." (or ends in the exception of
    the log call, which is made outside any [try] block). *)
Theorem X1_missing_argument_rejected (env : Env)
    (start_node end_node : option string) :
  falsy start_node || falsy end_node = true ->
  let raised := log_text env [] missing_args_message ERROR in
  Basic.run_graph_query env start_node end_node
    = (rejected_outcome missing_args_message raised,
       [ELogText missing_args_message ERROR raised])
  /\ DQ.run_graph_query env start_node end_node
     = (rejected_outcome missing_args_message raised,
        [ELogText missing_args_message ERROR raised]).
Proof.
  intros Hfalsy. cbv zeta.
  assert (Hparse : parse_args env start_node end_node []
            = (match log_text env [] missing_args_message ERROR with
               | Some e => Raised e
               | None => Returned (jsonify_status (ErrorBody missing_args_message) 400)
               end,
               [ELogText missing_args_message ERROR
                  (log_text env [] missing_args_message ERROR)])).
  { unfold parse_args, bind, logger_log_text, return_.
    fold missing_args_message.
    destruct start_node as [[|c1 s1]|]; destruct end_node as [[|c2 s2]|];
      try discriminate Hfalsy;
      destruct (log_text env [] missing_args_message ERROR); reflexivity. }
  split;
    unfold Basic.run_graph_query, DQ.run_graph_query, serve,
      Basic.run_graph_query_body, DQ.run_graph_query_body;
    unfold bind at 1; rewrite Hparse;
    destruct (log_text env [] missing_args_message ERROR); reflexivity.
Qed.

Lemma X1_missing_argument_rejected_witness :
  Basic.run_graph_query empty_store None (Some "5")
    = (Responded (mkResponse (ErrorBody missing_args_message) 400),
       [ELogText missing_args_message ERROR None])
  /\ DQ.run_graph_query empty_store None (Some "5")
     = (Responded (mkResponse (ErrorBody missing_args_message) 400),
        [ELogText missing_args_message ERROR None]).
Proof.
  apply (X1_missing_argument_rejected empty_store None (Some "5")).
  reflexivity.
Defined.

(** X2: when both arguments are present and non-empty but [int()] rejects
    one of them, both handlers make the error log call and nothing else:
    no store query is issued, and the request is answered with status 400
    and the message "Invalid 'start_node' or 'end_node' parameter. Must be
    an integer." (or ends in the exception of the log call). *)
Theorem X2_non_integer_argument_rejected (env : Env) (sn en : string) :
  sn <> "" -> en <> "" ->
  py_int env sn = None \/ py_int env en = None ->
  let raised := log_text env [] invalid_args_message ERROR in
  Basic.run_graph_query env (Some sn) (Some en)
    = (rejected_outcome invalid_args_message raised,
       [ELogText invalid_args_message ERROR raised])
  /\ DQ.run_graph_query env (Some sn) (Some en)
     = (rejected_outcome invalid_args_message raised,
        [ELogText invalid_args_message ERROR raised]).
Proof.
  intros Hsn Hen Hbad. cbv zeta.
  assert (Hparse : parse_args env (Some sn) (Some en) []
            = (match log_text env [] invalid_args_message ERROR with
               | Some e => Raised e
               | None => Returned (jsonify_status (ErrorBody invalid_args_message) 400)
               end,
               [ELogText invalid_args_message ERROR
                  (log_text env [] invalid_args_message ERROR)])).
  { unfold parse_args, bind, logger_log_text, return_.
    fold invalid_args_message.
    destruct sn as [|c1 s1]; [contradiction|].
    destruct en as [|c2 s2]; [contradiction|].
    destruct (py_int env (String c1 s1)) as [s|];
      destruct (py_int env (String c2 s2)) as [e|];
      try (destruct Hbad; discriminate);
      destruct (log_text env [] invalid_args_message ERROR); reflexivity. }
  split;
    unfold Basic.run_graph_query, DQ.run_graph_query, serve,
      Basic.run_graph_query_body, DQ.run_graph_query_body;
    unfold bind at 1; rewrite Hparse;
    destruct (log_text env [] invalid_args_message ERROR); reflexivity.
Qed.

Lemma X2_non_integer_argument_rejected_witness :
  Basic.run_graph_query empty_store (Some "1") (Some "x")
    = (Responded (mkResponse (ErrorBody invalid_args_message) 400),
       [ELogText invalid_args_message ERROR None])
  /\ DQ.run_graph_query empty_store (Some "1") (Some "x")
     = (Responded (mkResponse (ErrorBody invalid_args_message) 400),
        [ELogText invalid_args_message ERROR None]).
Proof.
  apply (X2_non_integer_argument_rejected empty_store "1" "x").
  - discriminate.
  - discriminate.
  - right. reflexivity.
Defined.

(** ** The fixed-hop handler *)

Lemma Basic_run_parsed (env : Env) (sn en : string) (s e : Z) :
  sn <> "" -> en <> "" ->
  py_int env sn = Some s -> py_int env en = Some e ->
  Basic.run_graph_query env (Some sn) (Some en)
    = serve (try_except
               (bind (run_sql env AtBasic (formatted (Basic.gql_query s e)))
                  (fun results =>
                     bind (append_rows results [])
                       (fun outputs =>
                          log_and_return env s e
                            (formatted (Basic.gql_query s e)) outputs)))
               (on_exception env)).
Proof.
  intros Hsn Hen Hs He.
  unfold Basic.run_graph_query, Basic.run_graph_query_body, serve.
  unfold bind at 1. unfold parse_args.
  destruct sn as [|c1 sn]; [contradiction|].
  destruct en as [|c2 en]; [contradiction|].
  rewrite Hs, He. unfold ret at 1.
  pose proof (basic_gql_query_ok s e) as Hq.
  remember (formatted (Basic.gql_query s e)) as text.
  rewrite Hq. reflexivity.
Qed.

(** X3: the fixed-hop handler answers with exactly the rows the store
    returns to its single query, in the store's order, with status 200,
    when every row has its three columns and the structured log call does
    not raise.  In particular a pair with no path within 20 hops is
    answered with the empty list and status 200: this handler has no "no
    path" message. *)
Theorem X3_basic_returns_store_rows (env : Env) (sn en : string) (s e : Z)
    (rows : list row) (outs : list Output) :
  sn <> "" -> en <> "" ->
  py_int env sn = Some s -> py_int env en = Some e ->
  execute_sql env [] (formatted (Basic.gql_query s e)) = SqlRows rows ->
  rows_outputs rows = Some outs ->
  (forall t entry, log_struct env t entry INFO = None) ->
  Basic.run_graph_query env (Some sn) (Some en)
    = (Responded (mkResponse (OutputsBody outs) 200),
       [ESql AtBasic (formatted (Basic.gql_query s e)) (SqlRows rows);
        ELogStruct
          (mkStructEntry (success_message s e) (formatted (Basic.gql_query s e))
             (List.length rows) outs) INFO None])
  /\ List.length outs = List.length rows.
Proof.
  intros Hsn Hen Hs He Hrows Houts Hlog.
  assert (Hlen : List.length outs = List.length rows).
  { clear Hrows. revert outs Houts.
    induction rows as [|r rows IH]; intros outs; cbn [rows_outputs].
    - now intros [= <-].
    - destruct (row_output r); [|discriminate].
      destruct (rows_outputs rows) as [os|]; [|discriminate].
      intros [= <-]. cbn. now rewrite (IH os). }
  split; [|exact Hlen].
  rewrite (Basic_run_parsed env sn en s e) by assumption.
  unfold serve, try_except, bind at 1, run_sql. rewrite Hrows.
  unfold bind at 1. rewrite append_rows_eq, Houts. cbn [app].
  unfold log_and_return, bind, logger_log_struct, return_. rewrite Hlog.
  now rewrite Hlen.
Qed.

Lemma X3_basic_returns_store_rows_witness :
  Basic.run_graph_query empty_store (Some "1") (Some "5")
    = (Responded (mkResponse (OutputsBody []) 200),
       [ESql AtBasic (formatted (Basic.gql_query 1 5)) (SqlRows []);
        ELogStruct
          (mkStructEntry (success_message 1 5) (formatted (Basic.gql_query 1 5))
             0 []) INFO None])
  /\ @List.length Output [] = @List.length row [].
Proof.
  apply (X3_basic_returns_store_rows empty_store "1" "5" 1 5 [] []).
  - discriminate.
  - discriminate.
  - reflexivity.
  - reflexivity.
  - reflexivity.
  - reflexivity.
  - intros t entry. reflexivity.
Defined.

(** ** Store failures *)

Lemma raise_last_silent {A : Type} (res : Res A) :
  raise_last res [].
Proof. intros [|ev t1] site text e t2 H; discriminate H. Qed.

Lemma raises_last_ret {A : Type} (a : A) : raises_last (ret a).
Proof.
  intros t res t' [= <- <-]. exists []. rewrite app_nil_r.
  split; [reflexivity|apply raise_last_silent].
Qed.

Lemma raises_last_raise {A : Type} (e : string) : raises_last (@raise A e).
Proof.
  intros t res t' [= <- <-]. exists []. rewrite app_nil_r.
  split; [reflexivity|apply raise_last_silent].
Qed.

Lemma raises_last_return {A : Type} (r : Response) : raises_last (@return_ A r).
Proof.
  intros t res t' [= <- <-]. exists []. rewrite app_nil_r.
  split; [reflexivity|apply raise_last_silent].
Qed.

Lemma raises_last_diverge {A : Type} : raises_last (@diverge A).
Proof.
  intros t res t' [= <- <-]. exists []. rewrite app_nil_r.
  split; [reflexivity|apply raise_last_silent].
Qed.

Lemma raises_last_fmt (r : string + string) : raises_last (fmt r).
Proof. destruct r; [apply raises_last_raise|apply raises_last_ret]. Qed.

Lemma raises_last_bind {A B : Type} (m : M A) (k : A -> M B) :
  raises_last m -> (forall a, raises_last (k a)) -> raises_last (bind m k).
Proof.
  intros Hm Hk t res t'. unfold bind.
  destruct (m t) as [r1 t1] eqn:Hrun.
  destruct (Hm _ _ _ Hrun) as (evs1 & -> & H1).
  destruct r1 as [a|e1|resp|].
  - intros Hrun2. destruct (Hk a _ _ _ Hrun2) as (evs2 & -> & H2).
    exists (evs1 ++ evs2)%list. split; [now rewrite app_assoc|].
    intros p site text e q Hsplit.
    apply split_app_cases in Hsplit as [(m0 & Hevs & ->)|(m0 & -> & Hevs)].
    + destruct (H1 _ _ _ _ _ Hevs) as [_ Hres]. discriminate Hres.
    + exact (H2 _ _ _ _ _ Hevs).
  - intros [= <- <-]. exists evs1. split; [reflexivity|].
    intros p site text e q Hsplit.
    destruct (H1 _ _ _ _ _ Hsplit) as [-> [= ->]]. now split.
  - intros [= <- <-]. exists evs1. split; [reflexivity|].
    intros p site text e q Hsplit.
    destruct (H1 _ _ _ _ _ Hsplit) as [_ Hres]. discriminate Hres.
  - intros [= <- <-]. exists evs1. split; [reflexivity|].
    intros p site text e q Hsplit.
    destruct (H1 _ _ _ _ _ Hsplit) as [_ Hres]. discriminate Hres.
Qed.

Lemma raises_last_run_sql (env : Env) (site : Site) (text : string) :
  raises_last (run_sql env site text).
Proof.
  intros t res t'. unfold run_sql.
  destruct (execute_sql env t text) as [e|rows]; intros [= <- <-];
    (eexists; split; [reflexivity|]);
    intros [|ev [|ev' p]] site' text' e' q Hsplit; try discriminate Hsplit.
  - injection Hsplit as <- <- <- <-. now split.
Qed.

Lemma raises_last_log_text (env : Env) (msg : string) (sev : Severity) :
  raises_last (logger_log_text env msg sev).
Proof.
  intros t res t'. unfold logger_log_text.
  destruct (log_text env t msg sev); intros [= <- <-];
    (eexists; split; [reflexivity|]);
    intros [|ev [|ev' p]] site' text' e' q Hsplit; discriminate Hsplit.
Qed.

Lemma raises_last_log_struct (env : Env) (entry : StructEntry) (sev : Severity) :
  raises_last (logger_log_struct env entry sev).
Proof.
  intros t res t'. unfold logger_log_struct.
  destruct (log_struct env t entry sev); intros [= <- <-];
    (eexists; split; [reflexivity|]);
    intros [|ev [|ev' p]] site' text' e' q Hsplit; discriminate Hsplit.
Qed.

Lemma raises_last_row_get (r : row) (i : nat) : raises_last (row_get r i).
Proof.
  unfold row_get. destruct (nth_error r i);
    [apply raises_last_ret|apply raises_last_raise].
Qed.

Lemma raises_last_append_rows (rows : list row) :
  forall outs, raises_last (append_rows rows outs).
Proof.
  induction rows as [|r rows IH]; intros outs; cbn [append_rows].
  - apply raises_last_ret.
  - repeat (apply raises_last_bind; [apply raises_last_row_get|intros]).
    apply IH.
Qed.

Create HintDb raises.
#[local] Hint Resolve raises_last_ret raises_last_raise raises_last_return
  raises_last_diverge raises_last_fmt raises_last_run_sql
  raises_last_log_text raises_last_log_struct raises_last_row_get
  raises_last_append_rows : raises.

Ltac raises_step :=
  match goal with
  | |- raises_last (bind _ _) => apply raises_last_bind; [|intros]
  | |- raises_last (match ?x with _ => _ end) => destruct x
  | |- _ => solve [auto with raises]
  end.

Lemma raises_last_log_and_return (env : Env) (s e : Z) (q : string)
    (outs : list Output) :
  raises_last (log_and_return env s e q outs).
Proof. unfold log_and_return. repeat raises_step. Qed.

Lemma raises_last_on_exception (env : Env) (e : string) :
  raises_last (on_exception env e).
Proof. unfold on_exception. repeat raises_step. Qed.

Lemma raises_last_loop_iteration (env : Env) (end_node_id : Z)
    (st : DQ.LoopState) :
  raises_last (DQ.loop_iteration env end_node_id st).
Proof.
  destruct st as [[[r cur] outs] q].
  unfold DQ.loop_iteration, DQ.first_end_node. repeat raises_step.
Qed.

Lemma raises_last_while_loop (env : Env) (end_node_id : Z) (fuel : nat) :
  forall st, raises_last (DQ.while_loop env fuel end_node_id st).
Proof.
  induction fuel as [|fuel IH]; intros [[[r cur] outs] q]; cbn [DQ.while_loop];
    destruct (r >? 0); auto with raises.
  apply raises_last_bind; [apply raises_last_loop_iteration|exact IH].
Qed.

Lemma raises_last_resolve_path (env : Env) (s e : Z) :
  raises_last (DQ.resolve_path env s e).
Proof.
  unfold DQ.resolve_path, DQ.first_path_length.
  repeat first [ raises_step | apply raises_last_while_loop
               | apply raises_last_log_and_return ].
Qed.

Lemma raises_last_basic_body (env : Env) (s e : Z) (text : string) :
  raises_last
    (bind (run_sql env AtBasic text)
       (fun results =>
          bind (append_rows results [])
            (fun outputs => log_and_return env s e text outputs))).
Proof. repeat first [ raises_step | apply raises_last_log_and_return ]. Qed.

(** What the [try] block with its [except] clause makes of a store
    failure. *)
Lemma try_except_store_failure (env : Env) (body : M Response)
    (res : Res Response) (tr t1 t2 : Trace)
    (site : Site) (text e : string) :
  raises_last body ->
  try_except body (on_exception env) [] = (res, tr) ->
  tr = (t1 ++ ESql site text (SqlRaise e) :: t2)%list ->
  exists raised,
    t2 = [ELogText ("An error occurred: " ++ e) ERROR raised]
    /\ outcome_of res = match raised with
                        | None => Responded (error_response e)
                        | Some e' => Unhandled e'
                        end.
Proof.
  intros Hbody. unfold try_except.
  destruct (body []) as [bres tb] eqn:Hb.
  destruct (Hbody _ _ _ Hb) as (evs & -> & Hlast). cbn [app] in *.
  destruct bres as [r|e0|resp|].
  - intros [= <- <-] Hsplit. destruct (Hlast _ _ _ _ _ Hsplit) as [_ H]; discriminate H.
  - unfold on_exception, bind, logger_log_text, return_.
    destruct (log_text env evs _ ERROR) as [e'|] eqn:Hlog;
      intros [= <- <-] Hsplit;
      apply split_app_cases in Hsplit as [(m & Hevs & ->)|(m & -> & Hevs)];
      try (destruct m as [|ev [|ev' m]]; discriminate Hevs);
      destruct (Hlast _ _ _ _ _ Hevs) as [-> [= ->]].
    + now exists (Some e').
    + now exists None.
  - intros [= <- <-] Hsplit. destruct (Hlast _ _ _ _ _ Hsplit) as [_ H]; discriminate H.
  - intros [= <- <-] Hsplit. destruct (Hlast _ _ _ _ _ Hsplit) as [_ H]; discriminate H.
Qed.

(** X4: a store call that raises aborts the request, in both handlers and
    at whichever query it happens: the only thing that follows it is the
    error log call of the [except] clause.  No further store query is
    issued, no structured log is written, and the request is answered
    with status 500 and "An error occurred: " followed by the text of the
    store's exception (or ends in the exception of that log call). *)
Theorem X4_store_failure_aborts (env : Env)
    (start_node end_node : option string) (out : Outcome) (tr t1 t2 : Trace)
    (site : Site) (text e : string) :
  Basic.run_graph_query env start_node end_node = (out, tr)
  \/ DQ.run_graph_query env start_node end_node = (out, tr) ->
  tr = (t1 ++ ESql site text (SqlRaise e) :: t2)%list ->
  exists raised,
    t2 = [ELogText ("An error occurred: " ++ e) ERROR raised]
    /\ out = match raised with
             | None => Responded (mkResponse
                         (ErrorBody ("An error occurred: " ++ e)) 500)
             | Some e' => Unhandled e'
             end.
Proof.
  intros Hrun Hsplit.
  destruct (parse_args_cases env start_node end_node)
    as [(sn & en & s & e0 & -> & -> & Hs & He & Hparse)
       |[(msg & Hparse)|(msg & err & Hparse)]].
  - destruct Hrun as [Hrun|Hrun].
    + unfold Basic.run_graph_query, Basic.run_graph_query_body, serve in Hrun.
      unfold bind at 1 in Hrun. rewrite Hparse in Hrun.
      pose proof (basic_gql_query_ok s e0) as Hq.
      remember (formatted (Basic.gql_query s e0)) as qtext.
      rewrite Hq in Hrun. unfold fmt, bind at 1, ret in Hrun.
      destruct (try_except _ _ []) as [res t'] eqn:Htry.
      injection Hrun as <- <-.
      exact (try_except_store_failure _ _ _ _ _ _ _ _ _
               (raises_last_basic_body env s e0 qtext) Htry Hsplit).
    + unfold DQ.run_graph_query, DQ.run_graph_query_body, serve in Hrun.
      unfold bind at 1 in Hrun. rewrite Hparse in Hrun.
      destruct (try_except _ _ []) as [res t'] eqn:Htry.
      injection Hrun as <- <-.
      exact (try_except_store_failure _ _ _ _ _ _ _ _ _
               (raises_last_resolve_path env s e0) Htry Hsplit).
  - exfalso.
    destruct Hrun as [Hrun|Hrun];
      unfold Basic.run_graph_query, Basic.run_graph_query_body,
        DQ.run_graph_query, DQ.run_graph_query_body, serve in Hrun;
      unfold bind at 1 in Hrun; rewrite Hparse in Hrun;
      injection Hrun as <- <-;
      destruct t1 as [|ev [|ev' t1]]; discriminate Hsplit.
  - exfalso.
    destruct Hrun as [Hrun|Hrun];
      unfold Basic.run_graph_query, Basic.run_graph_query_body,
        DQ.run_graph_query, DQ.run_graph_query_body, serve in Hrun;
      unfold bind at 1 in Hrun; rewrite Hparse in Hrun;
      injection Hrun as <- <-;
      destruct t1 as [|ev [|ev' t1]]; discriminate Hsplit.
Qed.

Lemma X4_store_failure_aborts_witness :
  exists raised,
    skipn 5 (snd run_store_down)
      = [ELogText ("An error occurred: " ++ "503 unavailable") ERROR raised]
    /\ fst run_store_down
       = match raised with
         | None => Responded (mkResponse
                     (ErrorBody ("An error occurred: " ++ "503 unavailable")) 500)
         | Some e' => Unhandled e'
         end.
Proof.
  apply (X4_store_failure_aborts scenario_store_down (Some "1") (Some "500")
           (fst run_store_down) (snd run_store_down)
           (firstn 4 (snd run_store_down)) (skipn 5 (snd run_store_down))
           AtChunk (formatted (DQ.gql_query_chunk 21 41 20)) "503 unavailable").
  - right. vm_compute. reflexivity.
  - vm_compute. reflexivity.
Defined.

(** ** Query texts and their values *)

Lemma basic_gql_query_text (s e : Z) :
  formatted (Basic.gql_query s e)
    = basic_head ++ str_of_int s ++ basic_middle ++ str_of_int e ++ basic_tail.
Proof. reflexivity. Qed.

Lemma end_node_query_text (s k : Z) :
  formatted (DQ.end_node_query s k)
    = end_node_head ++ str_of_int s ++ hops_open ++ str_of_int k
        ++ end_node_filter ++ str_of_int k ++ end_node_tail.
Proof. reflexivity. Qed.

Lemma gql_query_chunk_text (s e k : Z) :
  formatted (DQ.gql_query_chunk s e k)
    = chunk_head ++ str_of_int s ++ hops_open ++ str_of_int k
        ++ dest_open ++ str_of_int e ++ chunk_tail.
Proof. reflexivity. Qed.

Lemma gql_query_text (s e k : Z) :
  formatted (DQ.gql_query s e k)
    = main_head ++ str_of_int s ++ hops_open ++ str_of_int k
        ++ dest_open ++ str_of_int e ++ main_tail.
Proof. reflexivity. Qed.

Lemma string_app_inv_head (p x y : string) : p ++ x = p ++ y -> x = y.
Proof.
  induction p as [|c p IH]; cbn; [trivial|].
  intros [= H]. exact (IH H).
Qed.

(** A decimal number followed by something that is not a digit can be
    read back in one way only. *)
Lemma decimal_prefix_unique (d : string) :
  forall d' x x',
    string_forall decimal_char d = true ->
    string_forall decimal_char d' = true ->
    ends_number x = true -> ends_number x' = true ->
    d ++ x = d' ++ x' -> d = d' /\ x = x'.
Proof.
  induction d as [|c d IH]; intros [|c' d'] x x' Hd Hd' Hx Hx' Heq; cbn in *.
  - now split.
  - subst x. cbn in Hx. apply andb_true_iff in Hd' as [Hc _].
    rewrite Hc in Hx. discriminate.
  - subst x'. cbn in Hx'. apply andb_true_iff in Hd as [Hc _].
    rewrite Hc in Hx'. discriminate.
  - injection Heq as <- Heq.
    apply andb_true_iff in Hd as [_ Hd]. apply andb_true_iff in Hd' as [_ Hd'].
    destruct (IH _ _ _ Hd Hd' Hx Hx' Heq) as [-> ->]. now split.
Qed.

Lemma str_of_int_inj (a b : Z) : str_of_int a = str_of_int b -> a = b.
Proof.
  unfold str_of_int. intros H.
  apply (f_equal NilEmpty.int_of_string) in H.
  rewrite !NilEmpty.isi in H. injection H as H.
  exact (DecimalZ.to_int_inj _ _ H).
Qed.

Lemma number_prefix_unique (a a' : Z) (x x' : string) :
  ends_number x = true -> ends_number x' = true ->
  str_of_int a ++ x = str_of_int a' ++ x' -> a = a' /\ x = x'.
Proof.
  intros Hx Hx' H.
  destruct (decimal_prefix_unique _ _ _ _ (str_of_int_decimal a)
              (str_of_int_decimal a') Hx Hx' H) as [Ha ->].
  split; [exact (str_of_int_inj _ _ Ha)|reflexivity].
Qed.

Lemma segment_text_inj (seg seg' : Segment) :
  segment_text seg = segment_text seg' -> seg = seg'.
Proof.
  destruct seg as [[a b] k], seg' as [[a' b'] k']. unfold segment_text.
  rewrite !gql_query_chunk_text. intros H.
  apply string_app_inv_head in H.
  apply number_prefix_unique in H as [-> H]; [|reflexivity|reflexivity].
  apply string_app_inv_head in H.
  apply number_prefix_unique in H as [-> H]; [|reflexivity|reflexivity].
  apply string_app_inv_head in H.
  apply number_prefix_unique in H as [-> H]; [|reflexivity|reflexivity].
  reflexivity.
Qed.

(** X5: the text of every query determines the values it was built from.
    Two calls of the same query builder give the same text only for the
    same node ids and hop bound, so the store is never sent one text for
    two different questions. *)
Theorem X5_query_text_determines_values :
  (forall s e s' e',
     formatted (Basic.gql_query s e) = formatted (Basic.gql_query s' e') ->
     s = s' /\ e = e')
  /\ (forall s e s' e',
        formatted (DQ.path_length_query s e) = formatted (DQ.path_length_query s' e') ->
        s = s' /\ e = e')
  /\ (forall s k s' k',
        formatted (DQ.end_node_query s k) = formatted (DQ.end_node_query s' k') ->
        s = s' /\ k = k')
  /\ (forall s e k s' e' k',
        formatted (DQ.gql_query_chunk s e k) = formatted (DQ.gql_query_chunk s' e' k') ->
        s = s' /\ e = e' /\ k = k')
  /\ (forall s e k s' e' k',
        formatted (DQ.gql_query s e k) = formatted (DQ.gql_query s' e' k') ->
        s = s' /\ e = e' /\ k = k').
Proof.
  repeat split;
    rewrite ?basic_gql_query_text, ?path_length_query_text, ?end_node_query_text,
      ?gql_query_chunk_text, ?gql_query_text in H;
    apply string_app_inv_head in H;
    apply number_prefix_unique in H as [Ha H]; try reflexivity;
    apply string_app_inv_head in H;
    apply number_prefix_unique in H as [Hb H]; try reflexivity;
    try assumption;
    apply string_app_inv_head in H;
    apply number_prefix_unique in H as [Hc H]; try reflexivity;
    assumption.
Qed.

(** ** Responses *)

Lemma loop_returned_shape (end_node_id : Z) (st : DQ.LoopState)
    (resp : Response) (evs : list Event) :
  loop_run end_node_id st (Returned resp) evs -> response_shape resp.
Proof.
  intros Hrun.
  destruct (loop_returned_response _ _ _ _ Hrun _ eq_refl) as [cur ->].
  apply shape_failure.
Qed.

Lemma finish_step_shape (s e : Z) (q : string) (outs : list Output)
    (resp : Response) (fin : list Event) :
  finish_step s e q outs (Returned resp) fin -> response_shape resp.
Proof. inversion 1. apply shape_edges. Qed.

Lemma resolve_step_shape (s e : Z) (resp : Response) (evs : list Event) :
  resolve_step s e (Returned resp) evs -> response_shape resp.
Proof.
  inversion 1; subst;
    eauto using finish_step_shape, loop_returned_shape, shape_no_path.
Qed.

Lemma basic_step_shape (s e : Z) (resp : Response) (evs : list Event) :
  basic_step s e (Returned resp) evs -> response_shape resp.
Proof. inversion 1; subst; eauto using finish_step_shape. Qed.

Lemma request_run_shape (env : Env)
    (step : Z -> Z -> Res Response -> list Event -> Prop)
    (start_node end_node : option string) (resp : Response) (tr : Trace) :
  (forall s e r evs, step s e (Returned r) evs -> response_shape r) ->
  request_run env step start_node end_node (Responded resp) tr ->
  response_shape resp.
Proof.
  intros Hstep Hrun.
  inversion Hrun; subst; eauto using shape_bad_request, shape_failure.
Qed.

(** X6: a response of either handler is one of four things: the edge list
    with status 200; the "no path" message with [path_length] 0 and status
    200; an error message with status 400; an error message with status
    500.  In particular no error response carries edges: the edges
    gathered before a failure are dropped. *)
Theorem X6_response_shapes (env : Env)
    (start_node end_node : option string) (resp : Response) (tr : Trace) :
  Basic.run_graph_query env start_node end_node = (Responded resp, tr)
  \/ DQ.run_graph_query env start_node end_node = (Responded resp, tr) ->
  response_shape resp.
Proof.
  intros [Hrun|Hrun].
  - apply Basic_run_sound in Hrun.
    exact (request_run_shape _ _ _ _ _ _ basic_step_shape Hrun).
  - apply DQ_run_sound in Hrun.
    exact (request_run_shape _ _ _ _ _ _ resolve_step_shape Hrun).
Qed.

Lemma X6_response_shapes_witness :
  response_shape
    (mkResponse (ErrorBody ("An error occurred: " ++ "503 unavailable")) 500).
Proof.
  apply (X6_response_shapes scenario_store_down (Some "1") (Some "500") _
           (snd run_store_down)).
  right. vm_compute. reflexivity.
Defined.

(** X7: the only exception that escapes either handler is that of an
    error log call.  Every request is answered with a response, unless
    its last action is a [log_text] call of severity ERROR that raises;
    exceptions of the store, of the row accesses and of the structured log
    call are all turned into a response. *)
Theorem X7_only_error_log_escapes (env : Env)
    (start_node end_node : option string) (out : Outcome) (tr : Trace) :
  Basic.run_graph_query env start_node end_node = (out, tr)
  \/ DQ.run_graph_query env start_node end_node = (out, tr) ->
  (exists resp, out = Responded resp)
  \/ (exists e pre msg,
        out = Unhandled e /\ tr = (pre ++ [ELogText msg ERROR (Some e)])%list).
Proof.
  assert (Hgen : forall step,
            request_run env step start_node end_node out tr ->
            (exists resp, out = Responded resp)
            \/ (exists e pre msg,
                  out = Unhandled e
                  /\ tr = (pre ++ [ELogText msg ERROR (Some e)])%list)).
  { intros step [msg|msg err|sn en s e resp evs|sn en s e err evs
                |sn en s e err err' evs]; eauto.
    - right. exists err, [], msg. auto.
    - right. exists err', evs, ("An error occurred: " ++ err). auto. }
  intros [Hrun|Hrun].
  - apply Basic_run_sound in Hrun. exact (Hgen _ Hrun).
  - apply DQ_run_sound in Hrun. exact (Hgen _ Hrun).
Qed.

Lemma X7_only_error_log_escapes_witness :
  (exists resp, fst run_store_down = Responded resp)
  \/ (exists e pre msg,
        fst run_store_down = Unhandled e
        /\ snd run_store_down = (pre ++ [ELogText msg ERROR (Some e)])%list).
Proof.
  apply (X7_only_error_log_escapes scenario_store_down (Some "1") (Some "500")).
  right. vm_compute. reflexivity.
Defined.

(** ** The walk of a completed loop *)

Lemma sql_sites_app (t1 t2 : Trace) :
  sql_sites (t1 ++ t2)%list = (sql_sites t1 ++ sql_sites t2)%list.
Proof. apply flat_map_app. Qed.

Lemma string_app_assoc (a b c : string) : (a ++ b) ++ c = a ++ b ++ c.
Proof. induction a as [|x a IH]; cbn; [reflexivity|now rewrite IH]. Qed.

Lemma string_app_nil_r (a : string) : a ++ "" = a.
Proof. induction a as [|x a IH]; cbn; [reflexivity|now rewrite IH]. Qed.

Lemma join_app (a b : list string) : join (a ++ b)%list = join a ++ join b.
Proof.
  induction a as [|x a IH]; cbn; [reflexivity|].
  fold (join (a ++ b)%list). fold (join a). now rewrite IH, string_app_assoc.
Qed.

Lemma query_schedule_small (r : Z) :
  0 < r -> r <= 20 -> query_schedule r = [AtChunk].
Proof.
  intros H0 H20. unfold query_schedule.
  now rewrite (num_chunks_small r H0 H20).
Qed.

Lemma query_schedule_step (r : Z) :
  20 < r -> query_schedule r = AtEndNode :: AtChunk :: query_schedule (r - 20).
Proof.
  intros Hr. unfold query_schedule.
  rewrite (num_chunks_step r).
  pose proof (num_chunks_pos (r - 20) ltac:(lia)) as Hn.
  replace (num_chunks (r - 20) + 1 - 1) with (Z.succ (num_chunks (r - 20) - 1)) by lia.
  rewrite Z2Nat.inj_succ by lia. reflexivity.
Qed.

Lemma query_schedule_length (L : Z) :
  0 < L -> Z.of_nat (List.length (query_schedule L)) = 2 * num_chunks L - 1.
Proof.
  intros HL. unfold query_schedule.
  pose proof (num_chunks_pos L HL) as Hn.
  assert (Hrep : forall n : nat,
             List.length (List.concat (repeat [AtEndNode; AtChunk] n)) = (2 * n)%nat).
  { induction n as [|n IH]; cbn; [reflexivity|]. cbn in IH. rewrite IH. lia. }
  rewrite length_app, Hrep. cbn [List.length]. lia.
Qed.

(** Once nothing remains, the loop does nothing more. *)
Lemma loop_run_done (end_node_id r cur : Z) (outs : list Output) (q : string)
    (res : Res (list Output * string)) (evs : list Event) :
  loop_run end_node_id (r, cur, outs, q) res evs ->
  r <= 0 -> evs = [] /\ res = Val (outs, q).
Proof. inversion 1; subst; intros; try lia. now split. Qed.

Lemma boundary_step_sites (end_node_id r cur nxt : Z) (pre : list Event) :
  boundary_step end_node_id r cur nxt pre ->
  sql_sites pre = if r <=? 20 then [] else [AtEndNode].
Proof.
  destruct 1.
  - now replace (r <=? 20) with true by lia.
  - now replace (r <=? 20) with false by lia.
Qed.

(** The store queries of a completed loop are those of the schedule. *)
Lemma loop_run_schedule (end_node_id : Z) (st : DQ.LoopState)
    (res : Res (list Output * string)) (evs : list Event) :
  loop_run end_node_id st res evs ->
  forall final, res = Val final ->
  sql_sites evs
    = (if fst (fst (fst st)) >? 0 then query_schedule (fst (fst (fst st))) else []).
Proof.
  induction 1 as [r cur outs q Hr
                 |r cur outs q st' evs res evs' Hr Hstep Hrun IH| |];
    intros final Hres; try discriminate; cbn [fst].
  - now replace (r >? 0) with false by lia.
  - specialize (IH _ Hres).
    inversion Hstep as [r0 cur0 outs0 q0 nxt pre text rows new Hb Hc Hn| | | |]; subst.
    cbn [fst] in IH.
    rewrite !sql_sites_app, (boundary_step_sites _ _ _ _ _ Hb), IH.
    replace (r >? 0) with true by lia.
    destruct (Z_le_gt_dec r 20).
    + replace (r <=? 20) with true by lia.
      replace (Z.min 20 r) with r by lia.
      replace (r - r >? 0) with false by lia.
      now rewrite query_schedule_small by lia.
    + replace (r <=? 20) with false by lia.
      replace (Z.min 20 r) with 20 by lia.
      replace (r - 20 >? 0) with true by lia.
      now rewrite (query_schedule_step r) by lia.
Qed.

(** The segments of a completed loop follow the plan, go from the start
    node to the end node, and make up the logged query text. *)
Lemma loop_run_chain (end_node_id : Z) (st : DQ.LoopState)
    (res : Res (list Output * string)) (evs : list Event) :
  loop_run end_node_id st res evs ->
  forall final, res = Val final ->
  exists segs,
    texts_at AtChunk evs = map segment_text segs
    /\ map segment_size segs
       = (if fst (fst (fst st)) >? 0 then chunk_plan (fst (fst (fst st))) else [])
    /\ (0 < fst (fst (fst st)) -> chained (snd (fst (fst st))) end_node_id segs)
    /\ snd final = snd st ++ join (texts_at AtChunk evs).
Proof.
  induction 1 as [r cur outs q Hr
                 |r cur outs q st' evs res evs' Hr Hstep Hrun IH| |];
    intros final Hres; try discriminate; cbn [fst snd].
  - exists []. injection Hres as <-. cbn [fst snd].
    replace (r >? 0) with false by lia.
    repeat split; try reflexivity; [lia|now rewrite string_app_nil_r].
  - destruct (IH _ Hres) as (segs & Htexts & Hsizes & Hchain & Hquery).
    inversion Hstep as [r0 cur0 outs0 q0 nxt pre text rows new Hb Hc Hn| | | |]; subst.
    cbn [fst snd] in *.
    assert (Htext : segment_text (cur, nxt, Z.min 20 r) = text).
    { cbn. now rewrite Hc. }
    exists ((cur, nxt, Z.min 20 r) :: segs).
    assert (Hevs : texts_at AtChunk ((pre ++ [ESql AtChunk text (SqlRows rows)]) ++ evs')%list
                   = text :: texts_at AtChunk evs').
    { now rewrite !texts_at_app, (boundary_step_no_chunk _ _ _ _ _ Hb). }
    rewrite Hevs, Hquery.
    replace (r >? 0) with true by lia.
    split; [cbn [map]; now rewrite Htext, Htexts|].
    split; [|split].
    + cbn [map segment_size snd]. rewrite Hsizes.
      destruct (Z_le_gt_dec r 20).
      * replace (Z.min 20 r) with r by lia.
        replace (r - r >? 0) with false by lia.
        now rewrite chunk_plan_small by lia.
      * replace (Z.min 20 r) with 20 by lia.
        replace (r - 20 >? 0) with true by lia.
        now rewrite (chunk_plan_step r) by lia.
    + intros _. cbn [chained]. split; [reflexivity|].
      destruct Hb as [Hlast|btext result nxt Hlong Hq Ha].
      * replace (r - Z.min 20 r >? 0) with false in Hsizes by lia.
        apply map_eq_nil in Hsizes. now subst segs.
      * apply Hchain. lia.
    + cbn [join fold_right]. fold (join (texts_at AtChunk evs')).
      now rewrite string_app_assoc.
Qed.

Lemma path_from_app (es1 : list Output) :
  forall a es2,
    path_from a (es1 ++ es2)
      = match path_from a es1 with
        | Some m => path_from m es2
        | None => None
        end.
Proof.
  induction es1 as [|o es1 IH]; intros a es2; cbn; [reflexivity|].
  destruct (STARTNODEID o) as [x|]; [|reflexivity].
  destruct (ENDNODEID o) as [y|]; [|reflexivity].
  destruct (x =? a); [apply IH|reflexivity].
Qed.

Lemma path_from_contiguous (es : list Output) :
  forall a b, path_from a es = Some b -> contiguous es = true.
Proof.
  induction es as [|o es IH]; intros a b; cbn [path_from]; [reflexivity|].
  destruct (STARTNODEID o) as [x|]; [|discriminate].
  destruct (ENDNODEID o) as [y|] eqn:Hy; [|discriminate].
  destruct (x =? a); [|discriminate].
  intros Hrest. cbn [contiguous]. destruct es as [|o' es']; [reflexivity|].
  rewrite (IH _ _ Hrest), andb_true_r, Hy.
  cbn [path_from] in Hrest.
  destruct (STARTNODEID o') as [x'|]; [|discriminate].
  destruct (ENDNODEID o') as [y'|]; [|discriminate].
  destruct (x' =? y) eqn:Hx; [|discriminate].
  cbn. apply Z.eqb_eq in Hx. subst. apply Z.eqb_refl.
Qed.

(** When every segment fetch is answered with a path of the asked length
    between the asked nodes, the fetched edges of a completed loop are a
    path of the remaining length from the current start to the end node. *)
Lemma loop_run_stitch (end_node_id : Z) (st : DQ.LoopState)
    (res : Res (list Output * string)) (evs : list Event) :
  loop_run end_node_id st res evs ->
  forall final, res = Val final ->
  Forall segment_served evs ->
  0 < fst (fst (fst st)) ->
  path_from (snd (fst (fst st))) (fetched_outputs evs) = Some end_node_id
  /\ Z.of_nat (List.length (fetched_outputs evs)) = fst (fst (fst st)).
Proof.
  induction 1 as [r cur outs q Hr
                 |r cur outs q st' evs res evs' Hr Hstep Hrun IH| |];
    intros final Hres Hserved Hpos; try discriminate; cbn [fst snd] in *; [lia|].
  apply Forall_app in Hserved as [Hserved Hserved'].
  inversion Hstep as [r0 cur0 outs0 q0 nxt pre text rows new Hb Hc Hn| | | |]; subst.
  cbn [fst snd] in *.
  apply Forall_app in Hserved as [_ Hchunk].
  apply Forall_inv in Hchunk. cbn [segment_served] in Hchunk.
  destruct (Hchunk cur nxt (Z.min 20 r)) as (rows' & es & [= <-] & Hes & Hlen & Hpath).
  { cbn. now rewrite Hc. }
  assert (es = new) as -> by congruence.
  rewrite !fetched_outputs_app, (boundary_step_no_fetch _ _ _ _ _ Hb).
  cbn [app]. cbn [fetched_outputs flat_map]. rewrite Hn, app_nil_r.
  rewrite path_from_app, Hpath, length_app.
  destruct Hb as [Hlast|btext result nxt Hlong Hq Ha].
  - destruct (loop_run_done _ _ _ _ _ _ _ Hrun ltac:(lia)) as [-> _].
    cbn. split; [reflexivity|lia].
  - destruct (IH _ eq_refl Hserved' ltac:(lia)) as [Hp Hl].
    split; [exact Hp|]. lia.
Qed.

(** ** Completed chunked requests *)

Lemma DQ_success_long (env : Env) (start_node end_node : option string)
    (outs : list Output) (tr : Trace) (L : Z) :
  DQ.run_graph_query env start_node end_node
    = (Responded (jsonify (OutputsBody outs)), tr) ->
  resolved_length tr = Some L ->
  20 < L ->
  exists sn en s e text result q evs,
    start_node = Some sn /\ end_node = Some en /\
    py_int env sn = Some s /\ py_int env en = Some e /\
    loop_run e (L, s, [], "") (Val (outs, q)) evs /\
    tr = (ESql AtPathLength text result
            :: evs ++ [ELogStruct (success_entry s e q outs) INFO None])%list.
Proof.
  intros Hrun Hlen HL.
  destruct (DQ_success_inv _ _ _ _ _ Hrun)
    as (sn & en & s & e & text & result & L' & Hsn & Hen & Hs & He & _ & Hl & Hcases).
  assert (L' = L) as ->.
  { destruct Hcases as [(_ & q & evs & _ & ->)|(_ & _ & qtext & rows & _ & _ & ->)];
      cbn [resolved_length] in Hlen; rewrite Hl in Hlen; congruence. }
  destruct Hcases as [(_ & q & evs & Hloop & ->)|(_ & Hshort & _)]; [|lia].
  exists sn, en, s, e, text, result, q, evs. auto 10.
Qed.

(** X8: a chunked request that is answered with its edge list has issued,
    after the length query, a boundary query followed by a segment fetch
    for every chunk but the last and one segment fetch for the last, in
    that order and nothing else: [2 * ceil(L / 20)] store queries in
    all. *)
Theorem X8_query_schedule (env : Env) (start_node end_node : option string)
    (outs : list Output) (tr : Trace) (L : Z) :
  DQ.run_graph_query env start_node end_node
    = (Responded (jsonify (OutputsBody outs)), tr) ->
  resolved_length tr = Some L ->
  20 < L ->
  sql_sites tr
    = (AtPathLength
         :: List.concat (repeat [AtEndNode; AtChunk] (Z.to_nat ((L + 19) / 20 - 1)))
         ++ [AtChunk])%list
  /\ Z.of_nat (List.length (sql_sites tr)) = 2 * ((L + 19) / 20).
Proof.
  intros Hrun Hlen HL.
  destruct (DQ_success_long _ _ _ _ _ _ Hrun Hlen HL)
    as (sn & en & s & e & text & result & q & evs & _ & _ & _ & _ & Hloop & ->).
  pose proof (loop_run_schedule _ _ _ _ Hloop _ eq_refl) as Hsites.
  cbn [fst] in Hsites. replace (L >? 0) with true in Hsites by lia.
  assert (Hall : sql_sites
            (ESql AtPathLength text result
               :: evs ++ [ELogStruct (success_entry s e q outs) INFO None])
          = AtPathLength :: query_schedule L).
  { change (ESql AtPathLength text result :: ?l)
      with ([ESql AtPathLength text result] ++ l)%list.
    rewrite !sql_sites_app, Hsites. cbn. now rewrite app_nil_r. }
  rewrite Hall. split; [reflexivity|].
  cbn [List.length]. rewrite Nat2Z.inj_succ, query_schedule_length by lia.
  unfold num_chunks. lia.
Qed.

Lemma X8_query_schedule_witness :
  sql_sites (snd run47)
    = (AtPathLength
         :: List.concat (repeat [AtEndNode; AtChunk] (Z.to_nat ((47 + 19) / 20 - 1)))
         ++ [AtChunk])%list
  /\ Z.of_nat (List.length (sql_sites (snd run47))) = 2 * ((47 + 19) / 20).
Proof.
  apply (X8_query_schedule scenario47 (Some "1") (Some "500")
           (outputs_of (fst run47)) (snd run47) 47).
  - vm_compute. reflexivity.
  - vm_compute. reflexivity.
  - lia.
Defined.

(** X9: in a chunked request that is answered with its edge list, the
    segment fetches go from the requested start node to the requested end
    node: the first segment starts at the start node, every later segment
    starts at the node the previous one was fetched up to, and the last
    segment ends at the end node; their hop bounds are those of the chunk
    plan. *)
Theorem X9_segments_are_chained (env : Env) (sn en : string) (s e : Z)
    (outs : list Output) (tr : Trace) (L : Z) :
  DQ.run_graph_query env (Some sn) (Some en)
    = (Responded (jsonify (OutputsBody outs)), tr) ->
  py_int env sn = Some s -> py_int env en = Some e ->
  resolved_length tr = Some L ->
  20 < L ->
  exists segs : list Segment,
    texts_at AtChunk tr = map segment_text segs
    /\ map segment_size segs = chunk_plan L
    /\ chained s e segs.
Proof.
  intros Hrun Hs He Hlen HL.
  destruct (DQ_success_long _ _ _ _ _ _ Hrun Hlen HL)
    as (sn' & en' & s' & e' & text & result & q & evs
        & [= <-] & [= <-] & Hs' & He' & Hloop & ->).
  assert (s' = s) as -> by congruence.
  assert (e' = e) as -> by congruence.
  destruct (loop_run_chain _ _ _ _ Hloop _ eq_refl)
    as (segs & Htexts & Hsizes & Hchain & _).
  cbn [fst snd] in *. replace (L >? 0) with true in Hsizes by lia.
  exists segs. split; [|split; [assumption|apply Hchain; lia]].
  change (ESql AtPathLength text result :: ?l)
    with ([ESql AtPathLength text result] ++ l)%list.
  rewrite !texts_at_app, Htexts. cbn. now rewrite app_nil_r.
Qed.

Lemma X9_segments_are_chained_witness :
  exists segs : list Segment,
    texts_at AtChunk (snd run47) = map segment_text segs
    /\ map segment_size segs = chunk_plan 47
    /\ chained 1 500 segs.
Proof.
  apply (X9_segments_are_chained scenario47 "1" "500" 1 500
           (outputs_of (fst run47)) (snd run47) 47).
  - vm_compute. reflexivity.
  - reflexivity.
  - reflexivity.
  - vm_compute. reflexivity.
  - lia.
Defined.

(** X10: the stitching is right whenever the store is.  If every segment
    fetch of a chunked request is answered with a path of as many edges
    as its hop bound between its two nodes, the edge list the request is
    answered with has exactly [L] edges, leads from the start node to the
    end node with every edge starting where the one before it ends, and
    so satisfies the contiguity invariant across the segment
    boundaries. *)
Theorem X10_stitched_path_is_contiguous (env : Env) (sn en : string) (s e : Z)
    (outs : list Output) (tr : Trace) (L : Z) :
  DQ.run_graph_query env (Some sn) (Some en)
    = (Responded (jsonify (OutputsBody outs)), tr) ->
  py_int env sn = Some s -> py_int env en = Some e ->
  resolved_length tr = Some L ->
  20 < L ->
  Forall segment_served tr ->
  Z.of_nat (List.length outs) = L
  /\ path_from s outs = Some e
  /\ contiguous outs = true.
Proof.
  intros Hrun Hs He Hlen HL Hserved.
  destruct (DQ_success_long _ _ _ _ _ _ Hrun Hlen HL)
    as (sn' & en' & s' & e' & text & result & q & evs
        & [= <-] & [= <-] & Hs' & He' & Hloop & ->).
  assert (s' = s) as -> by congruence.
  assert (e' = e) as -> by congruence.
  apply Forall_inv_tail in Hserved. apply Forall_app in Hserved as [Hserved _].
  destruct (loop_run_stitch _ _ _ _ Hloop _ eq_refl Hserved ltac:(cbn; lia))
    as [Hpath Hcount].
  pose proof (loop_run_outputs _ _ _ _ Hloop _ eq_refl) as Houts.
  cbn [fst snd app] in *. subst outs.
  split; [exact Hcount|].
  split; [exact Hpath|exact (path_from_contiguous _ _ _ Hpath)].
Qed.

Lemma run47_trace : snd run47 = trace47.
Proof. vm_compute. reflexivity. Qed.

Lemma X10_stitched_path_is_contiguous_witness :
  Z.of_nat (List.length (outputs_of (fst run47))) = 47
  /\ path_from 1 (outputs_of (fst run47)) = Some 500
  /\ contiguous (outputs_of (fst run47)) = true.
Proof.
  apply (X10_stitched_path_is_contiguous scenario47 "1" "500" 1 500
           (outputs_of (fst run47)) (snd run47) 47).
  - vm_compute. reflexivity.
  - reflexivity.
  - reflexivity.
  - vm_compute. reflexivity.
  - lia.
  - rewrite run47_trace. unfold trace47.
    repeat (apply Forall_cons; [try exact I|]); try apply Forall_nil;
      intros a b k Heq; apply segment_text_inj in Heq;
      injection Heq as <- <- <-;
      (eexists; eexists; split; [reflexivity|]);
      repeat split; vm_compute; reflexivity.
Defined.

(** ** The log entry of a completed request *)

Lemma boundary_step_no_main (end_node_id r cur nxt : Z) (pre : list Event) :
  boundary_step end_node_id r cur nxt pre -> texts_at AtMain pre = [].
Proof. destruct 1; reflexivity. Qed.

Lemma iteration_step_no_main (end_node_id : Z) (st : DQ.LoopState)
    (res : Res DQ.LoopState) (evs : list Event) :
  iteration_step end_node_id st res evs -> texts_at AtMain evs = [].
Proof.
  destruct 1 as [r cur outs q nxt pre text rows new Hb
                |r cur outs q nxt pre text result e Hb| | |];
    try reflexivity;
    now rewrite texts_at_app, (boundary_step_no_main _ _ _ _ _ Hb).
Qed.

Lemma loop_run_no_main (end_node_id : Z) (st : DQ.LoopState)
    (res : Res (list Output * string)) (evs : list Event) :
  loop_run end_node_id st res evs -> texts_at AtMain evs = [].
Proof.
  induction 1 as [|r cur outs q st' evs res evs' Hr Hstep Hrun IH| |];
    eauto using iteration_step_no_main.
  now rewrite texts_at_app, (iteration_step_no_main _ _ _ _ Hstep), IH.
Qed.

(** X11: the structured log entry of a request answered with its edge
    list names the two node ids in its message and carries, as its query,
    the texts of all the edge queries the request sent, concatenated in
    the order they were sent (the chunk queries of the loop, or the single
    query of the short branch); the length query and the boundary queries
    are not part of it. *)
Theorem X11_log_entry_provenance (env : Env) (sn en : string) (s e : Z)
    (outs : list Output) (tr : Trace) :
  DQ.run_graph_query env (Some sn) (Some en)
    = (Responded (jsonify (OutputsBody outs)), tr) ->
  py_int env sn = Some s -> py_int env en = Some e ->
  exists pre entry,
    tr = (pre ++ [ELogStruct entry INFO None])%list
    /\ entry_message entry
       = "GQL query executed successfully for start_node=" ++ str_of_int s
           ++ " and end_node=" ++ str_of_int e
    /\ entry_query entry = join (texts_at AtChunk tr ++ texts_at AtMain tr).
Proof.
  intros Hrun Hs He.
  destruct (DQ_success_inv _ _ _ _ _ Hrun)
    as (sn' & en' & s' & e' & text & result & L
        & [= <-] & [= <-] & Hs' & He' & _ & _ & Hcases).
  assert (s' = s) as -> by congruence.
  assert (e' = e) as -> by congruence.
  destruct Hcases as [(_ & q & evs & Hloop & ->)|(_ & _ & qtext & rows & _ & _ & ->)].
  - exists (ESql AtPathLength text result :: evs), (success_entry s e q outs).
    split; [reflexivity|]. split; [reflexivity|].
    destruct (loop_run_chain _ _ _ _ Hloop _ eq_refl) as (segs & _ & _ & _ & Hq).
    cbn [fst snd] in Hq. cbn [entry_query success_entry].
    change (ESql AtPathLength text result :: ?l)
      with ([ESql AtPathLength text result] ++ l)%list.
    rewrite !texts_at_app, (loop_run_no_main _ _ _ _ Hloop). cbn [texts_at flat_map].
    cbn [site_eqb app]. now rewrite !app_nil_r, Hq.
  - exists [ESql AtPathLength text result; ESql AtMain qtext (SqlRows rows)],
      (success_entry s e qtext outs).
    split; [reflexivity|]. split; [reflexivity|].
    cbn. now rewrite string_app_nil_r.
Qed.

Lemma X11_log_entry_provenance_witness :
  exists pre entry,
    snd run47 = (pre ++ [ELogStruct entry INFO None])%list
    /\ entry_message entry
       = "GQL query executed successfully for start_node=" ++ str_of_int 1
           ++ " and end_node=" ++ str_of_int 500
    /\ entry_query entry
       = join (texts_at AtChunk (snd run47) ++ texts_at AtMain (snd run47)).
Proof.
  apply (X11_log_entry_provenance scenario47 "1" "500" 1 500
           (outputs_of (fst run47)) (snd run47)).
  - vm_compute. reflexivity.
  - reflexivity.
  - reflexivity.
Defined.

(** ** Chunked requests, however they end *)

Lemma plan_from_step (r : Z) :
  0 < r -> plan_from r = Z.min 20 r :: plan_from (r - Z.min 20 r).
Proof.
  intros Hr. unfold plan_from. replace (r >? 0) with true by lia.
  destruct (Z_le_gt_dec r 20).
  - replace (Z.min 20 r) with r by lia.
    replace (r - r >? 0) with false by lia. now apply chunk_plan_small.
  - replace (Z.min 20 r) with 20 by lia.
    replace (r - 20 >? 0) with true by lia. apply chunk_plan_step; lia.
Qed.

Lemma schedule_from_step (r : Z) :
  0 < r ->
  schedule_from r
    = ((if r <=? 20 then [] else [AtEndNode])
         ++ AtChunk :: schedule_from (r - Z.min 20 r))%list.
Proof.
  intros Hr. unfold schedule_from. replace (r >? 0) with true by lia.
  destruct (Z_le_gt_dec r 20).
  - replace (Z.min 20 r) with r by lia. replace (r <=? 20) with true by lia.
    replace (r - r >? 0) with false by lia. now apply query_schedule_small.
  - replace (Z.min 20 r) with 20 by lia. replace (r <=? 20) with false by lia.
    replace (r - 20 >? 0) with true by lia. apply query_schedule_step; lia.
Qed.

Lemma schedule_from_long (r : Z) :
  20 < r -> exists rest, schedule_from r = AtEndNode :: rest.
Proof.
  intros Hr. rewrite schedule_from_step by lia.
  replace (r <=? 20) with false by lia. cbn. eauto.
Qed.

(** What one iteration issues is the start of what remains to be
    issued. *)
Lemma iteration_step_prefix (end_node_id r cur : Z) (outs : list Output)
    (q : string) (res : Res DQ.LoopState) (evs : list Event) :
  iteration_step end_node_id (r, cur, outs, q) res evs ->
  0 < r ->
  (exists nxt text,
     texts_at AtChunk evs = [text]
     /\ text = segment_text (cur, nxt, Z.min 20 r)
     /\ sql_sites evs = ((if r <=? 20 then [] else [AtEndNode]) ++ [AtChunk])%list)
  \/ (texts_at AtChunk evs = [] /\ sql_sites evs = [AtEndNode] /\ 20 < r
      /\ forall st', res <> Val st').
Proof.
  intros Hstep Hr.
  inversion Hstep as [r0 cur0 outs0 q0 nxt pre text rows new Hb Hc Hn
                     |r0 cur0 outs0 q0 nxt pre text result e Hb Hc Hf
                     |r0 cur0 outs0 q0 btext result e Hlong Hq Ha
                     |r0 cur0 outs0 q0 btext result Hlong Hq Ha
                     |r0 cur0 outs0 q0 btext result e Hlong Hq Ha]; subst;
    try (right; repeat split; try reflexivity; try assumption; discriminate).
  - left. exists nxt, text.
    rewrite texts_at_app, sql_sites_app, (boundary_step_no_chunk _ _ _ _ _ Hb),
      (boundary_step_sites _ _ _ _ _ Hb).
    repeat split; try reflexivity. cbn. now rewrite Hc.
  - left. exists nxt, text.
    rewrite texts_at_app, sql_sites_app, (boundary_step_no_chunk _ _ _ _ _ Hb),
      (boundary_step_sites _ _ _ _ _ Hb).
    repeat split; try reflexivity. cbn. now rewrite Hc.
Qed.

Lemma loop_run_prefix (end_node_id : Z) (st : DQ.LoopState)
    (res : Res (list Output * string)) (evs : list Event) :
  loop_run end_node_id st res evs ->
  exists segs rest rest',
    texts_at AtChunk evs = map segment_text segs
    /\ plan_from (fst (fst (fst st))) = (map segment_size segs ++ rest)%list
    /\ schedule_from (fst (fst (fst st))) = (sql_sites evs ++ rest')%list.
Proof.
  assert (Hlast : forall r cur outs q ires evs0,
            0 < r ->
            iteration_step end_node_id (r, cur, outs, q) ires evs0 ->
            exists segs rest rest',
              texts_at AtChunk evs0 = map segment_text segs
              /\ plan_from r = (map segment_size segs ++ rest)%list
              /\ schedule_from r = (sql_sites evs0 ++ rest')%list).
  { intros r cur outs q ires evs0 Hr Hstep.
    destruct (iteration_step_prefix _ _ _ _ _ _ _ Hstep Hr)
      as [(nxt & text & Ht & -> & Hs)|(Ht & Hs & Hlong & _)].
    - exists [(cur, nxt, Z.min 20 r)], (plan_from (r - Z.min 20 r)),
        (schedule_from (r - Z.min 20 r)).
      rewrite Ht, Hs, plan_from_step, schedule_from_step by lia.
      repeat split. now rewrite <- app_assoc.
    - destruct (schedule_from_long r Hlong) as [rest' Hrest].
      exists [], (plan_from r), rest'. rewrite Ht, Hs, Hrest. now repeat split. }
  induction 1 as [r cur outs q Hr
                 |r cur outs q st' evs res evs' Hr Hstep Hrun IH
                 |r cur outs q e evs Hr Hstep
                 |r cur outs q resp evs Hr Hstep]; cbn [fst] in *;
    eauto.
  - exists [], (plan_from r), (schedule_from r). now repeat split.
  - destruct IH as (segs & rest & rest' & Htexts & Hplan & Hsched).
    destruct (iteration_step_prefix _ _ _ _ _ _ _ Hstep Hr)
      as [(nxt & text & Ht & -> & Hs)|(_ & _ & _ & Hne)];
      [|now destruct (Hne st')].
    pose proof (iteration_step_remaining _ _ _ _ _ _ _ Hstep) as Hrem.
    rewrite Hrem in Hplan, Hsched.
    exists ((cur, nxt, Z.min 20 r) :: segs), rest, rest'.
    rewrite texts_at_app, sql_sites_app, Ht, Hs, Htexts,
      plan_from_step, schedule_from_step, Hplan, Hsched by lia.
    repeat split. now rewrite <- !app_assoc.
Qed.

Lemma DQ_long_inv (env : Env) (start_node end_node : option string)
    (out : Outcome) (tr : Trace) (L : Z) :
  DQ.run_graph_query env start_node end_node = (out, tr) ->
  resolved_length tr = Some L ->
  20 < L ->
  exists s e text result lres evs tail,
    loop_run e (L, s, [], "") lres evs
    /\ tr = (ESql AtPathLength text result :: evs ++ tail)%list
    /\ sql_sites tail = [] /\ texts_at AtChunk tail = [].
Proof.
  intros Hrun Hlen HL. apply DQ_run_sound in Hrun.
  assert (Hstep : forall s e res evs,
            resolve_step s e res evs ->
            forall tail0, sql_sites tail0 = [] -> texts_at AtChunk tail0 = [] ->
            resolved_length (evs ++ tail0)%list = Some L ->
            exists text result lres evs' tail,
              loop_run e (L, s, [], "") lres evs'
              /\ (evs ++ tail0)%list
                 = (ESql AtPathLength text result :: evs' ++ tail)%list
              /\ sql_sites tail = [] /\ texts_at AtChunk tail = []).
  { intros s e res evs
      [text result err Ht Hl
      |text result Ht Hl
      |text result err Ht Hl
      |text result L0 outs q evs0 res0 fin Ht Hl HL0 Hloop Hfin
      |text result L0 evs0 err Ht Hl HL0 Hloop
      |text result L0 evs0 resp Ht Hl HL0 Hloop
      |text result L0 qtext rows outs res0 fin Ht Hl HLz HL0 Hq Hrows Hfin
      |text result L0 qtext fetched err Ht Hl HLz HL0 Hq Hf]
      tail0 Hs0 Ht0 Hres; cbn [app resolved_length] in Hres;
      try (rewrite Hl in Hres; injection Hres as Hres; try lia; subst L0).
    - destruct (length_answer result) as [[?|]|]; [contradiction|discriminate..].
    - exists text, result, (Val (outs, q)), evs0, (fin ++ tail0)%list.
      split; [assumption|]. split; [cbn [app]; now rewrite <- app_assoc|].
      rewrite sql_sites_app, texts_at_app, Hs0, Ht0. destruct Hfin; now split.
    - exists text, result, (Raised err), evs0, tail0. now repeat split.
    - exists text, result, (Returned resp), evs0, tail0. now repeat split. }
  destruct Hrun as [msg|msg err|sn en s e resp evs Hsn Hen Hs He Hrun
                   |sn en s e err evs Hsn Hen Hs He Hrun
                   |sn en s e err err' evs Hsn Hen Hs He Hrun];
    try discriminate Hlen.
  - rewrite <- (app_nil_r evs) in Hlen |- *.
    destruct (Hstep _ _ _ _ Hrun [] eq_refl eq_refl Hlen)
      as (text & result & lres & evs' & tail & H). eauto 10.
  - match type of Hlen with
    | resolved_length (_ ++ ?t)%list = _ =>
        destruct (Hstep _ _ _ _ Hrun t eq_refl eq_refl Hlen)
          as (text & result & lres & evs' & tail & H)
    end.
    eauto 10.
  - match type of Hlen with
    | resolved_length (_ ++ ?t)%list = _ =>
        destruct (Hstep _ _ _ _ Hrun t eq_refl eq_refl Hlen)
          as (text & result & lres & evs' & tail & H)
    end.
    eauto 10.
Qed.

(** X12: however a chunked request ends, what it has asked the store is an
    initial part of the plan.  Its segment fetches carry the hop bounds of
    the chunk plan, in order, and its store queries are the length query
    followed by the first queries of the schedule: an aborted request has
    issued fewer queries than a completed one, never others and never
    more. *)
Theorem X12_aborted_request_follows_plan (env : Env)
    (start_node end_node : option string) (out : Outcome) (tr : Trace) (L : Z) :
  DQ.run_graph_query env start_node end_node = (out, tr) ->
  resolved_length tr = Some L ->
  20 < L ->
  exists (segs : list Segment) (rest : list Z) (rest' : list Site),
    texts_at AtChunk tr = map segment_text segs
    /\ chunk_plan L = (map segment_size segs ++ rest)%list
    /\ (AtPathLength :: query_schedule L = sql_sites tr ++ rest')%list.
Proof.
  intros Hrun Hlen HL.
  destruct (DQ_long_inv _ _ _ _ _ _ Hrun Hlen HL)
    as (s & e & text & result & lres & evs & tail & Hloop & -> & Hsites & Htexts).
  destruct (loop_run_prefix _ _ _ _ Hloop)
    as (segs & rest & rest' & Hsegs & Hplan & Hsched).
  cbn [fst] in Hplan, Hsched. unfold plan_from, schedule_from in *.
  replace (L >? 0) with true in * by lia.
  exists segs, rest, rest'.
  change (ESql AtPathLength text result :: ?l)
    with ([ESql AtPathLength text result] ++ l)%list.
  rewrite !texts_at_app, !sql_sites_app, Hsegs, Htexts, Hsites, Hplan, Hsched.
  cbn. now rewrite !app_nil_r.
Qed.

Lemma X12_aborted_request_follows_plan_witness :
  exists (segs : list Segment) (rest : list Z) (rest' : list Site),
    texts_at AtChunk (snd run_store_down) = map segment_text segs
    /\ chunk_plan 47 = (map segment_size segs ++ rest)%list
    /\ (AtPathLength :: query_schedule 47
        = sql_sites (snd run_store_down) ++ rest')%list.
Proof.
  apply (X12_aborted_request_follows_plan scenario_store_down
           (Some "1") (Some "500") (fst run_store_down) (snd run_store_down) 47).
  - vm_compute. reflexivity.
  - vm_compute. reflexivity.
  - lia.
Defined.

(** ** The order of the store queries *)

Lemma boundary_step_chunked (end_node_id r cur nxt : Z) (pre : list Event) :
  boundary_step end_node_id r cur nxt pre -> chunked_sites (sql_sites pre).
Proof. destruct 1; repeat constructor. Qed.

Lemma iteration_step_chunked (end_node_id : Z) (st : DQ.LoopState)
    (res : Res DQ.LoopState) (evs : list Event) :
  iteration_step end_node_id st res evs -> chunked_sites (sql_sites evs).
Proof.
  destruct 1 as [r cur outs q nxt pre text rows new Hb
                |r cur outs q nxt pre text result e Hb| | |];
    try (rewrite sql_sites_app; apply Forall_app_intro;
         [exact (boundary_step_chunked _ _ _ _ _ Hb)|]);
    cbn; repeat (apply Forall_cons; [auto|]); apply Forall_nil.
Qed.

Lemma loop_run_chunked (end_node_id : Z) (st : DQ.LoopState)
    (res : Res (list Output * string)) (evs : list Event) :
  loop_run end_node_id st res evs -> chunked_sites (sql_sites evs).
Proof.
  induction 1 as [|r cur outs q st' evs res evs' Hr Hstep Hrun IH
                 |r cur outs q e evs Hr Hstep|r cur outs q resp evs Hr Hstep].
  - constructor.
  - rewrite sql_sites_app.
    apply Forall_app_intro; [exact (iteration_step_chunked _ _ _ _ Hstep)|exact IH].
  - exact (iteration_step_chunked _ _ _ _ Hstep).
  - exact (iteration_step_chunked _ _ _ _ Hstep).
Qed.

Lemma resolve_step_sites (s e : Z) (res : Res Response) (evs : list Event) :
  resolve_step s e res evs ->
  exists rest, sql_sites evs = AtPathLength :: rest /\ after_length_query rest.
Proof.
  destruct 1 as [text result err Ht Hl
                |text result Ht Hl
                |text result err Ht Hl
                |text result L outs q evs res fin Ht Hl HL Hloop Hfin
                |text result L evs err Ht Hl HL Hloop
                |text result L evs resp Ht Hl HL Hloop
                |text result L qtext rows outs res fin Ht Hl HL0 HL Hq Hrows Hfin
                |text result L qtext fetched err Ht Hl HL0 HL Hq Hf];
    try (exists []; split; [reflexivity|now left]);
    try (exists [AtMain]; split; [try destruct Hfin; reflexivity|right; now left]);
    exists (sql_sites evs); (split; [|right; right; exact (loop_run_chunked _ _ _ _ Hloop)]);
    try reflexivity.
  cbn [sql_sites flat_map app]. fold (sql_sites (evs ++ fin)%list).
  rewrite sql_sites_app. destruct Hfin; cbn; now rewrite app_nil_r.
Qed.

(** X13: the store queries of a request of the chunking handler are
    ordered in one of three ways.  There is none at all; or the length
    query comes first, once, followed by nothing, by the single fetch
    alone, or by boundary queries and segment fetches alone.  The single
    fetch is never mixed with the queries of the loop, and the length
    query is never repeated. *)
Theorem X13_query_modes_do_not_mix (env : Env)
    (start_node end_node : option string) (out : Outcome) (tr : Trace) :
  DQ.run_graph_query env start_node end_node = (out, tr) ->
  sql_sites tr = []
  \/ exists rest,
       sql_sites tr = AtPathLength :: rest
       /\ (rest = [] \/ rest = [AtMain]
           \/ Forall (fun site => site = AtEndNode \/ site = AtChunk) rest).
Proof.
  intros Hrun. apply DQ_run_sound in Hrun.
  destruct Hrun as [msg|msg err|sn en s e resp evs Hsn Hen Hs He Hstep
                   |sn en s e err evs Hsn Hen Hs He Hstep
                   |sn en s e err err' evs Hsn Hen Hs He Hstep];
    try (left; reflexivity); right;
    destruct (resolve_step_sites _ _ _ _ Hstep) as (rest & Hsites & Hrest);
    exists rest; (split; [|exact Hrest]);
    rewrite ?sql_sites_app, Hsites; cbn; now rewrite ?app_nil_r.
Qed.

Lemma X13_query_modes_do_not_mix_witness :
  sql_sites (snd run47) = []
  \/ exists rest,
       sql_sites (snd run47) = AtPathLength :: rest
       /\ (rest = [] \/ rest = [AtMain]
           \/ Forall (fun site => site = AtEndNode \/ site = AtChunk) rest).
Proof.
  apply (X13_query_modes_do_not_mix scenario47 (Some "1") (Some "500") (fst run47)).
  vm_compute. reflexivity.
Defined.

(** ** What is answered has been logged *)

Lemma loop_returned_logged (end_node_id : Z) (st : DQ.LoopState)
    (res : Res (list Output * string)) (evs : list Event) :
  loop_run end_node_id st res evs ->
  forall resp, res = Returned resp -> logged_last resp evs.
Proof.
  induction 1 as [|r cur outs q st' evs res evs' Hr Hstep Hrun IH
                 |r cur outs q e evs Hr Hstep|r cur outs q resp' evs Hr Hstep];
    intros resp Hres; try discriminate.
  - specialize (IH _ Hres). unfold logged_last in *.
    destruct (body resp) as [msg|msg n|os].
    + destruct IH as [pre ->]. exists (evs ++ pre)%list. now rewrite app_assoc.
    + destruct IH as [pre ->]. exists (evs ++ pre)%list. now rewrite app_assoc.
    + destruct IH as (pre & entry & -> & Hentry).
      exists (evs ++ pre)%list, entry. now rewrite app_assoc.
  - injection Hres as <-.
    inversion Hstep as [| | |r0 cur0 outs0 q0 btext result Hlong Hq Ha|]; subst.
    now exists [ESql AtEndNode btext result].
Qed.

Lemma finish_step_logged (s e : Z) (q : string) (outs : list Output)
    (resp : Response) (fin pre : list Event) :
  finish_step s e q outs (Returned resp) fin -> logged_last resp (pre ++ fin)%list.
Proof. inversion 1. now exists pre, (success_entry s e q outs). Qed.

Lemma resolve_step_logged (s e : Z) (resp : Response) (evs : list Event) :
  resolve_step s e (Returned resp) evs -> logged_last resp evs.
Proof.
  inversion 1 as [|text result Ht Hl|
                  |text result L outs q evs0 res fin Ht Hl HL Hloop Hfin|
                  |text result L evs0 resp' Ht Hl HL Hloop
                  |text result L qtext rows outs res fin Ht Hl HL0 HL Hq Hrows Hfin|];
    subst.
  - now exists [ESql AtPathLength text result].
  - change (ESql AtPathLength text result :: evs0 ++ fin)%list
      with ((ESql AtPathLength text result :: evs0) ++ fin)%list.
    eapply finish_step_logged; eassumption.
  - pose proof (loop_returned_logged _ _ _ _ Hloop _ eq_refl) as Hlogged.
    unfold logged_last in *.
    destruct (body resp) as [msg|msg n|os].
    + destruct Hlogged as [pre ->]. now exists (ESql AtPathLength text result :: pre).
    + destruct Hlogged as [pre ->]. now exists (ESql AtPathLength text result :: pre).
    + destruct Hlogged as (pre & entry & -> & Hentry).
      now exists (ESql AtPathLength text result :: pre), entry.
  - change (ESql AtPathLength text result :: ESql AtMain qtext (SqlRows rows) :: fin)
      with ([ESql AtPathLength text result; ESql AtMain qtext (SqlRows rows)] ++ fin)%list.
    eapply finish_step_logged; eassumption.
Qed.

Lemma basic_step_logged (s e : Z) (resp : Response) (evs : list Event) :
  basic_step s e (Returned resp) evs -> logged_last resp evs.
Proof.
  inversion 1 as [text rows outs res fin Ht Hrows Hfin|]; subst.
  change (ESql AtBasic text (SqlRows rows) :: fin)
    with ([ESql AtBasic text (SqlRows rows)] ++ fin)%list.
  eapply finish_step_logged; eassumption.
Qed.

Lemma request_run_logged (env : Env)
    (step : Z -> Z -> Res Response -> list Event -> Prop)
    (start_node end_node : option string) (resp : Response) (tr : Trace) :
  (forall s e r evs, step s e (Returned r) evs -> logged_last r evs) ->
  request_run env step start_node end_node (Responded resp) tr ->
  logged_last resp tr.
Proof.
  intros Hstep Hrun.
  inversion Hrun as [msg|
                    |sn en s e resp' evs Hsn Hen Hs He Hret
                    |sn en s e err evs Hsn Hen Hs He Hraised|]; subst.
  - now exists [].
  - exact (Hstep _ _ _ _ Hret).
  - now exists evs.
Qed.

(** X14: nothing is answered that has not been logged.  Whenever either
    handler answers a request, the last thing it did was the log call
    that goes with the response: an error response (status 400 or 500)
    follows an ERROR [log_text] call with the very message of the
    response; the "no path" response follows a WARNING [log_text] call
    with its message; the edge list follows the INFO [log_struct] call
    that carries it; and that log call did not raise. *)
Theorem X14_responses_are_logged (env : Env)
    (start_node end_node : option string) (resp : Response) (tr : Trace) :
  Basic.run_graph_query env start_node end_node = (Responded resp, tr)
  \/ DQ.run_graph_query env start_node end_node = (Responded resp, tr) ->
  match body resp with
  | ErrorBody msg => exists pre, tr = (pre ++ [ELogText msg ERROR None])%list
  | MessageBody msg _ => exists pre, tr = (pre ++ [ELogText msg WARNING None])%list
  | OutputsBody outs =>
      exists pre entry,
        tr = (pre ++ [ELogStruct entry INFO None])%list /\ entry_results entry = outs
  end.
Proof.
  intros [Hrun|Hrun].
  - apply Basic_run_sound in Hrun.
    exact (request_run_logged _ _ _ _ _ _ basic_step_logged Hrun).
  - apply DQ_run_sound in Hrun.
    exact (request_run_logged _ _ _ _ _ _ resolve_step_logged Hrun).
Qed.

Lemma X14_responses_are_logged_witness :
  exists pre,
    snd run_no_boundary
      = (pre ++ [ELogText (missing_message 1 20) ERROR None])%list.
Proof.
  apply (X14_responses_are_logged scenario_no_boundary (Some "1") (Some "500")
           (missing_response 1) (snd run_no_boundary)).
  right. vm_compute. reflexivity.
Defined.
